(** * Shallow embedding of the DSPy resume analyzer and movie reviewer

    Source files: [src/ResumeAnalyzer.py] ([ResumeAnalyzer.forward],
    [_parse_score], [_format_list], [display_results], the button handler
    of [main]) and [src/movieReviewandRecommendation.py]
    ([AdvancedMovieReviewer.forward], [_parse_rating], [_format_genres],
    [_format_list], [_rate_quality], [display_results], the button handler
    of [main]).  Streamlit calls are modelled only by whether they raise.

    Python strings are modelled as lists of bytes ([list ascii]); string
    literals holding non-ASCII characters (the star ratings) are their UTF-8
    bytes.  Character classes ([str.isspace], [\d], [str.lower]) are those of
    Python restricted to the ASCII range.  Floats are kept as the exact
    decimals they were parsed from; [parse_score64] and [py_str64] embed
    [_parse_score] and [str] again over binary64, for the properties that
    depend on rounding and on the shortest [repr]. *)

From Stdlib Require Import Ascii String List Bool ZArith Lia.
From Stdlib Require Import DecimalString.
Import ListNotations.

Definition text := list ascii.
Definition lit (s : string) : text := list_ascii_of_string s.

(* ------------------------------------------------------------------ *)
(** ** Characters *)

(** [str.isspace] on the ASCII range: [\t \n \v \f \r], the separators
    [\x1c]..[\x1f] and the space. *)
Definition is_space (c : ascii) : bool :=
  let n := nat_of_ascii c in
  (Nat.leb 9 n && Nat.leb n 13) || (Nat.leb 28 n && Nat.leb n 32).

(** [\d] on the ASCII range. *)
Definition is_digit (c : ascii) : bool :=
  let n := nat_of_ascii c in Nat.leb 48 n && Nat.leb n 57.

Definition is_upper (c : ascii) : bool :=
  let n := nat_of_ascii c in Nat.leb 65 n && Nat.leb n 90.

Definition is_lower (c : ascii) : bool :=
  let n := nat_of_ascii c in Nat.leb 97 n && Nat.leb n 122.

Definition to_lower (c : ascii) : ascii :=
  if is_upper c then ascii_of_nat (nat_of_ascii c + 32) else c.

Definition to_upper (c : ascii) : ascii :=
  if is_lower c then ascii_of_nat (nat_of_ascii c - 32) else c.

(** [str.lower] *)
Definition lower (s : text) : text := map to_lower s.

Fixpoint text_eqb (a b : text) : bool :=
  match a, b with
  | [], [] => true
  | x :: a', y :: b' => Ascii.eqb x y && text_eqb a' b'
  | _, _ => false
  end.

(* ------------------------------------------------------------------ *)
(** ** [str.strip], [str.split(sep)], [str.split()], [str.title] *)

Fixpoint lstrip (s : text) : text :=
  match s with
  | c :: r => if is_space c then lstrip r else s
  | [] => []
  end.

Definition rstrip (s : text) : text := rev (lstrip (rev s)).

(** [s.strip()] *)
Definition strip (s : text) : text := rstrip (lstrip s).

(** [s.split(sep)] for a one-character separator: always at least one
    piece, [''.split(';') == ['']]. *)
Fixpoint split_on (sep : ascii) (s : text) : list text :=
  match s with
  | [] => [[]]
  | c :: r =>
      if Ascii.eqb c sep then [] :: split_on sep r
      else match split_on sep r with
           | p :: ps => (c :: p) :: ps
           | [] => [[c]]
           end
  end.

(** [s.split()]: the maximal runs of non-whitespace characters;
    [cur] is the current word, reversed. *)
Fixpoint split_ws_aux (s cur : text) : list text :=
  match s with
  | [] => match cur with [] => [] | _ => [rev cur] end
  | c :: r =>
      if is_space c then
        match cur with
        | [] => split_ws_aux r []
        | _ => rev cur :: split_ws_aux r []
        end
      else split_ws_aux r (c :: cur)
  end.

Definition split_ws (s : text) : list text := split_ws_aux s [].

(** [s.title()]: a cased character following a cased one is lowered, any
    other is raised. *)
Fixpoint title_aux (prev_cased : bool) (s : text) : text :=
  match s with
  | [] => []
  | c :: r =>
      (if prev_cased then to_lower c else to_upper c)
        :: title_aux (is_upper c || is_lower c) r
  end.

Definition title (s : text) : text := title_aux false s.

(** [needle in hay] *)
Fixpoint prefixb (p s : text) : bool :=
  match p, s with
  | [], _ => true
  | x :: p', y :: s' => Ascii.eqb x y && prefixb p' s'
  | _ :: _, [] => false
  end.

Fixpoint contains (needle hay : text) : bool :=
  prefixb needle hay ||
  match hay with
  | [] => false
  | _ :: hay' => contains needle hay'
  end.

(** Non-emptiness of a string, its truth value in a comprehension filter. *)
Definition truthy (s : text) : bool :=
  match s with [] => false | _ => true end.

(* ------------------------------------------------------------------ *)
(** ** The list and label formatters *)

(** [ResumeAnalyzer._format_list]:
    [[f"- {item.strip()}" for item in items.split(";") if item.strip()]] *)
Definition format_list_resume (items : text) : list text :=
  map (fun item => lit "- " ++ strip item)
      (filter (fun item => truthy (strip item)) (split_on ";" items)).

(** [AdvancedMovieReviewer._format_list]: the same with [","]. *)
Definition format_list_movie (items : text) : list text :=
  map (fun item => lit "- " ++ strip item)
      (filter (fun item => truthy (strip item)) (split_on "," items)).

(** [AdvancedMovieReviewer._format_genres]:
    [[g.strip().title() for g in genres.split(",") if g.strip()]] *)
Definition format_genres (genres : text) : list text :=
  map (fun g => title (strip g))
      (filter (fun g => truthy (strip g)) (split_on "," genres)).

(** Stage 1 of [ResumeAnalyzer.forward]:
    [[s.strip() for s in sections.split(",") if s.strip()]] *)
Definition section_list_of (sections : text) : list text :=
  map strip (filter (fun s => truthy (strip s)) (split_on "," sections)).

(* ------------------------------------------------------------------ *)
(** ** [AdvancedMovieReviewer._rate_quality] *)

Definition star5 : text := lit "★★★★★".
Definition star4 : text := lit "★★★★☆".
Definition star3 : text := lit "★★★☆☆".
Definition star2 : text := lit "★★☆☆☆".

Definition rate_quality (t : text) : text :=
  let t := lower t in
  if contains (lit "excellent") t then star5 else
  if contains (lit "good") t then star4 else
  if contains (lit "average") t then star3 else
  if contains (lit "poor") t then star2 else
  star3.



(* ------------------------------------------------------------------ *)
(** ** Numbers: the regular expression search, [float], [min], [max], [str] *)

(** The leading run of digits of [s], and what follows it. *)
Fixpoint take_digits (s : text) : text * text :=
  match s with
  | c :: r =>
      if is_digit c then let '(d, rest) := take_digits r in (c :: d, rest)
      else ([], s)
  | [] => ([], [])
  end.

(** [re.search(PAT, s)] and its [group(1)], for the pattern of
    [_parse_score]: one or more digits, an optional dot, digits.  The leftmost match
    starts at the first digit; the greedy quantifiers take the whole digit
    run, then a dot if there is one, then the digit run after it. *)
Fixpoint search_number (s : text) : option text :=
  match s with
  | [] => None
  | c :: r =>
      if is_digit c then
        let '(d1, rest) := take_digits s in
        match rest with
        | d :: rest' =>
            if Ascii.eqb d "."%char then let '(d2, _) := take_digits rest' in
                                    Some (d1 ++ "."%char :: d2)
            else Some d1
        | [] => Some d1
        end
      else search_number r
  end.

(** Python numbers as they occur here: an [int], or a [float] written
    [ip.fp] in decimal.  A float is kept as the exact decimal it was parsed
    from (binary rounding is not modelled). *)
Inductive pynum :=
| PInt (z : Z)
| PFloat (ip fp : text).

Definition digit_val (c : ascii) : Z := Z.of_nat (nat_of_ascii c - 48).

(** The value of a digit string. *)
Definition dval (ds : text) : Z :=
  fold_left (fun a c => (10 * a + digit_val c)%Z) ds 0%Z.

(** A number as the fraction [numerator / denominator]. *)
Definition num_parts (x : pynum) : Z * Z :=
  match x with
  | PInt z => (z, 1%Z)
  | PFloat ip fp => (dval (ip ++ fp), (10 ^ Z.of_nat (length fp))%Z)
  end.

(** [x < y] and [x == y] on Python numbers. *)
Definition py_lt (x y : pynum) : bool :=
  let '(a, b) := num_parts x in let '(c, d) := num_parts y in (a * d <? c * b)%Z.

Definition py_eqb (x y : pynum) : bool :=
  let '(a, b) := num_parts x in let '(c, d) := num_parts y in (a * d =? c * b)%Z.

(** [max(a, b)] keeps [a] unless [b > a]; [min(a, b)] keeps [a] unless
    [b < a]. *)
Definition py_max (a b : pynum) : pynum := if py_lt a b then b else a.
Definition py_min (a b : pynum) : pynum := if py_lt b a then b else a.

(** [float(s)] on the decimal literals [\d+\.?\d*] handed to it by
    [_parse_score]; [None] is the [ValueError] raised on other text (the
    further literal forms [float] accepts are not modelled). *)
Definition py_float (s : text) : option pynum :=
  let '(ip, r) := take_digits s in
  match ip, r with
  | [], _ => None
  | _, [] => Some (PFloat ip [])
  | _, c :: r' =>
      if Ascii.eqb c "."%char then
        let '(fp, r'') := take_digits r' in
        match r'' with [] => Some (PFloat ip fp) | _ => None end
      else None
  end.

(** The literal [5.0]. *)
Definition five : pynum := PFloat (lit "5") (lit "0").

(** [min(hi, max(lo, float(match.group(1))) if match else 5.0)], the body of
    [_parse_score] ([lo = 1]) and [_parse_rating] ([lo = 0]). *)
Definition parse_number (lo hi : Z) (s : text) : option pynum :=
  match match search_number s with
        | Some tok => option_map (py_max (PInt lo)) (py_float tok)
        | None => Some five
        end with
  | Some y => Some (py_min (PInt hi) y)
  | None => None
  end.

(** [ResumeAnalyzer._parse_score] *)
Definition parse_score (score_str : text) : option pynum :=
  parse_number 1 10 score_str.

(** [AdvancedMovieReviewer._parse_rating] *)
Definition parse_rating (rating_str : text) : option pynum :=
  parse_number 0 10 rating_str.

(** [str(n)] of an [int]. *)
Definition str_int (z : Z) : text :=
  lit (NilEmpty.string_of_int (Z.to_int z)).

Fixpoint count_zeros (s : text) : nat :=
  match s with
  | c :: r => if Ascii.eqb c "0"%char then S (count_zeros r) else 0
  | [] => 0
  end.

Definition strip_trailing_zeros (s : text) : text :=
  rev (skipn (count_zeros (rev s)) (rev s)).

Definition pad2 (s : text) : text :=
  match s with [_] => "0"%char :: s | _ => s end.

(** [repr] of a non-negative float [ip.fp]: the significant digits [sig]
    with the decimal exponent [e] of the first; positional notation when
    [-4 <= e < 16] (at least one digit after the point), scientific
    notation ([1e-05], [1.5e+16]) otherwise. *)
Definition float_repr (ip fp : text) : text :=
  let all := ip ++ fp in
  let z := count_zeros all in
  let sig := strip_trailing_zeros (skipn z all) in
  match sig with
  | [] => lit "0.0"
  | s0 :: srest =>
      let e := (Z.of_nat (length ip) - Z.of_nat z - 1)%Z in
      if ((-4 <=? e) && (e <? 16))%Z then
        if (0 <=? e)%Z then
          let k := S (Z.to_nat e) in
          let fracp := skipn k sig in
          firstn k sig ++ repeat "0"%char (k - length sig)
            ++ "."%char :: match fracp with [] => ["0"%char] | _ => fracp end
        else lit "0." ++ repeat "0"%char (Z.to_nat (- e) - 1) ++ sig
      else
        s0 :: match srest with [] => [] | _ => "."%char :: srest end
           ++ "e"%char :: (if (e <? 0)%Z then "-"%char else "+"%char)
           :: pad2 (str_int (Z.abs e))
  end.

(** [str(x)] *)
Definition py_str (x : pynum) : text :=
  match x with
  | PInt z => str_int z
  | PFloat ip fp => float_repr ip fp
  end.

(* ------------------------------------------------------------------ *)
(** ** [float] and [repr] over binary64

    The [pynum] floats above keep the exact decimal that was parsed.  Where a
    property depends on how [float] rounds and on the digits [repr] prints,
    the same functions are embedded here over IEEE 754 binary64, the
    representation of a CPython [float]. *)

(** A non-negative binary64 value: [B64 m e] is [m * 2^e]; [B64Inf] is
    [inf]. *)
Inductive f64 :=
| B64 (m e : Z)
| B64Inf.

(** [floor(log2(a / b))] for [a, b > 0] and [a / b >= 2^-1100]; smaller
    quotients get an exponent below [-1100], which [round64] clamps to the
    subnormal exponent [-1074] in any case. *)
Definition flog2 (a b : Z) : Z :=
  (Z.log2 (a * 2 ^ 1100 / b) - 1100)%Z.

(** [a / b] divided by [2^E], rounded to an integer, ties to even. *)
Definition round_at (a b E : Z) : Z :=
  let '(n, d) := if (0 <=? E)%Z then (a, b * 2 ^ E)%Z else (a * 2 ^ (- E), b)%Z in
  let q := (n / d)%Z in
  let r := (n mod d)%Z in
  if (d <? 2 * r)%Z || ((2 * r =? d)%Z && Z.odd q) then (q + 1)%Z else q.

(** The binary64 value nearest to [a / b] ([a >= 0], [b > 0]), ties to even:
    53-bit significands, gradual underflow below [2^-1022], [inf] from
    [2^1024] on.  [float] of a decimal literal is this correctly rounded
    value. *)
Definition round64 (a b : Z) : f64 :=
  if (a =? 0)%Z then B64 0 0 else
  let E := Z.max (flog2 a b - 52) (-1074) in
  let q := round_at a b E in
  if (q =? 2 ^ 53)%Z then
    (if (971 <? E + 1)%Z then B64Inf else B64 (2 ^ 52) (E + 1))
  else if (971 <? E)%Z then B64Inf else B64 q E.

(** [m * 2^e] as a fraction. *)
Definition f64_ratio (m e : Z) : Z * Z :=
  if (0 <=? e)%Z then (m * 2 ^ e, 1)%Z else (m, 2 ^ (- e))%Z.

(** Python numbers with binary64 floats. *)
Inductive pynum64 :=
| PInt64 (z : Z)
| PFlt (f : f64).

(** The value of a number as a fraction; [None] is [inf]. *)
Definition ratio64 (x : pynum64) : option (Z * Z) :=
  match x with
  | PInt64 z => Some (z, 1%Z)
  | PFlt (B64 m e) => Some (f64_ratio m e)
  | PFlt B64Inf => None
  end.

(** [x < y] and [x == y]: Python compares an [int] and a [float] by their
    exact values. *)
Definition py_lt64 (x y : pynum64) : bool :=
  match ratio64 x, ratio64 y with
  | Some (a, b), Some (c, d) => (a * d <? c * b)%Z
  | Some _, None => true
  | None, _ => false
  end.

Definition py_eqb64 (x y : pynum64) : bool :=
  match ratio64 x, ratio64 y with
  | Some (a, b), Some (c, d) => (a * d =? c * b)%Z
  | None, None => true
  | _, _ => false
  end.

Definition py_max64 (a b : pynum64) : pynum64 := if py_lt64 a b then b else a.
Definition py_min64 (a b : pynum64) : pynum64 := if py_lt64 b a then b else a.

(** [float(s)] on the literals [\d+\.?\d*]: the parsed decimal, correctly
    rounded. *)
Definition py_float64 (s : text) : option pynum64 :=
  option_map (fun x => let '(a, b) := num_parts x in PFlt (round64 a b))
    (py_float s).

(** The literal [5.0]. *)
Definition five64 : pynum64 := PFlt (round64 5 1).

(** [_parse_score] and [_parse_rating] over binary64. *)
Definition parse_number64 (lo hi : Z) (s : text) : option pynum64 :=
  match match search_number s with
        | Some tok => option_map (py_max64 (PInt64 lo)) (py_float64 tok)
        | None => Some five64
        end with
  | Some y => Some (py_min64 (PInt64 hi) y)
  | None => None
  end.

Definition parse_score64 (score_str : text) : option pynum64 :=
  parse_number64 1 10 score_str.

Definition parse_rating64 (rating_str : text) : option pynum64 :=
  parse_number64 0 10 rating_str.

(** Equality of two binary64 values. *)
Definition f64_eqb (x y : f64) : bool := py_eqb64 (PFlt x) (PFlt y).

(** [c * 10^sc], read back as a float. *)
Definition round_dec (c sc : Z) : f64 :=
  if (0 <=? sc)%Z then round64 (c * 10 ^ sc) 1 else round64 c (10 ^ (- sc)).

(** [a / b] divided by [10^sc], as a fraction. *)
Definition scaled (a b sc : Z) : Z * Z :=
  if (0 <=? sc)%Z then (a, b * 10 ^ sc)%Z else (a * 10 ^ (- sc), b)%Z.

Definition floor_at (a b sc : Z) : Z := let '(n, d) := scaled a b sc in (n / d)%Z.

(** Of [lo] and [lo + 1], the one nearer [a / b / 10^sc]; on a tie the
    even one. *)
Definition pick (a b sc lo : Z) : Z :=
  let '(n, d) := scaled a b sc in
  match (2 * n ?= (2 * lo + 1) * d)%Z with
  | Lt => lo
  | Gt => (lo + 1)%Z
  | Eq => if Z.even lo then lo else (lo + 1)%Z
  end.

(** [10^s <= a / b] *)
Definition pow10_le (s a b : Z) : bool :=
  if (0 <=? s)%Z then (10 ^ s * b <=? a)%Z else (b <=? a * 10 ^ (- s))%Z.

(** The decimal exponent [floor(log10(a / b))], searched downwards from
    [s]. *)
Fixpoint e10_from (fuel : nat) (s a b : Z) : Z :=
  match fuel with
  | O => s
  | S f => if pow10_le s a b then s else e10_from f (s - 1) a b
  end.

(** The shortest digits that read back as [x]: at each scale [10^sc], from
    one significant digit on, the two integers around [a / b / 10^sc] are
    tried; the first scale where one of them reads back as [x] gives the
    digits, the nearer one if both do. *)
Fixpoint shortest_from (fuel : nat) (sc a b : Z) (x : f64) : option (Z * Z) :=
  match fuel with
  | O => None
  | S f =>
      let lo := floor_at a b sc in
      match f64_eqb (round_dec lo sc) x, f64_eqb (round_dec (lo + 1) sc) x with
      | true, true => Some (pick a b sc lo, sc)
      | true, false => Some (lo, sc)
      | false, true => Some ((lo + 1)%Z, sc)
      | false, false => shortest_from f (sc - 1) a b x
      end
  end.

(** The [n] low decimal digits of [c]. *)
Fixpoint digits_n (n : nat) (c : Z) : text :=
  match n with
  | O => []
  | S n' => digits_n n' (c / 10) ++ [ascii_of_nat (48 + Z.to_nat (c mod 10))]
  end.

(** [c * 10^sc] as an integer part and a fraction part. *)
Definition dec_text (c sc : Z) : text * text :=
  if (0 <=? sc)%Z then (digits_n 18 c ++ repeat "0"%char (Z.to_nat sc), [])
  else let D := digits_n (18 + Z.to_nat (- sc)) c in (firstn 18 D, skipn 18 D).

(** [repr] of a non-negative float: the shortest digits that read back as
    the same float (17 significant digits always do), laid out as
    [float_repr] does. *)
Definition repr64 (f : f64) : text :=
  match f with
  | B64Inf => lit "inf"
  | B64 m e =>
      if (m =? 0)%Z then lit "0.0" else
      let '(a, b) := f64_ratio m e in
      let k := e10_from 700 309 a b in
      let '(c, sc) :=
        match shortest_from 17 k a b f with
        | Some p => p
        | None => (pick a b (k - 16) (floor_at a b (k - 16)), (k - 16)%Z)
        end in
      let '(ip, fp) := dec_text c sc in
      float_repr ip fp
  end.

(** [str(x)] *)
Definition py_str64 (x : pynum64) : text :=
  match x with
  | PInt64 z => str_int z
  | PFlt f => repr64 f
  end.


(* ------------------------------------------------------------------ *)
(** ** Oracle calls and the exception-and-trace monad *)

(** Python values stored in the result dictionaries; a [dict] is an
    association list in insertion order. *)
Set Warnings "-register-all".

Inductive pyval :=
| VStr (s : text)
| VNum (n : pynum)
| VList (l : list text)
| VDict (d : list (text * pyval)).

Definition dict := list (text * pyval).

(** [d[k] = v]: an existing key keeps its position, a new key goes last. *)
Fixpoint dict_set (k : text) (v : pyval) (d : dict) : dict :=
  match d with
  | [] => [(k, v)]
  | (k', v') :: r => if text_eqb k k' then (k, v) :: r else (k', v') :: dict_set k v r
  end.

Fixpoint dict_get (k : text) (d : dict) : option pyval :=
  match d with
  | [] => None
  | (k', v) :: r => if text_eqb k k' then Some v else dict_get k r
  end.

(** The oracle calls the two modules issue: one per [dspy.ChainOfThought]
    predictor, with its named inputs. *)
Inductive call :=
| CallSections (resume_text : text)                 (* section_identifier *)
| CallEvaluate (section resume_text : text)         (* content_evaluator *)
| CallAssess (resume_text : text)                   (* overall_assessor *)
| CallAnalysis (review : text)                      (* analysis *)
| CallGenres (review : text)                        (* genre_classifier *)
| CallRecommend (review : text).                    (* recommender *)

(** A computation sees the calls issued so far and extends that trace; its
    result is [None] when a Python exception propagates out of it. *)
Definition M (A : Type) : Type := list call -> list call * option A.

Definition ret {A} (a : A) : M A := fun tr => (tr, Some a).

Definition bind {A B} (m : M A) (f : A -> M B) : M B :=
  fun tr => match m tr with
            | (tr', Some a) => f a tr'
            | (tr', None) => (tr', None)
            end.

Notation "x <- m ;; k" := (bind m (fun x => k))
  (at level 61, m at next level, right associativity).

(** A pure step that may raise. *)
Definition lift {A} (o : option A) : M A := fun tr => (tr, o).

(** [try: m except Exception: ... return dflt] *)
Definition catch {A} (m : M A) (dflt : A) : M A :=
  fun tr => match m tr with
            | (tr', Some a) => (tr', Some a)
            | (tr', None) => (tr', Some dflt)
            end.

(** The language model behind the resume predictors.  Each reply may depend
    on every call issued before ([list call]); [None] is a call that raises
    (model unreachable, malformed completion). *)
Record resume_oracle := {
  o_sections : list call -> text -> option text;
  o_evaluate : list call -> text -> text -> option (text * text);
  o_assess : list call -> text -> option (text * text * text * text)
}.

Definition issue {A} (c : call) (reply : list call -> option A) : M A :=
  fun tr => (tr ++ [c], reply tr).

Section Resume.
Variable o : resume_oracle.

(** The loop over [section_list] in [ResumeAnalyzer.forward]. *)
Fixpoint analyze_sections (resume_text : text) (secs : list text)
    (section_analyses : dict) : M dict :=
  match secs with
  | [] => ret section_analyses
  | section :: rest =>
      result <- issue (CallEvaluate section resume_text)
                      (fun tr => o_evaluate o tr section resume_text) ;;
      score <- lift (parse_score (snd result)) ;;
      analyze_sections resume_text rest
        (dict_set section
           (VDict [(lit "analysis", VStr (fst result)); (lit "score", VNum score)])
           section_analyses)
  end.

(** [ResumeAnalyzer.forward]; the [st.error] report in the handler is
    display only. *)
Definition forward (resume_text : text) : M dict :=
  catch
    (sections <- issue (CallSections resume_text)
                       (fun tr => o_sections o tr resume_text) ;;
     let section_list := section_list_of sections in
     section_analyses <- analyze_sections resume_text section_list [] ;;
     overall <- issue (CallAssess resume_text)
                      (fun tr => o_assess o tr resume_text) ;;
     let '(summary, strengths, weaknesses, recommendations) := overall in
     ret [(lit "sections", VList section_list);
          (lit "section_analyses", VDict section_analyses);
          (lit "overall_summary", VStr summary);
          (lit "strengths", VList (format_list_resume strengths));
          (lit "weaknesses", VList (format_list_resume weaknesses));
          (lit "recommendations", VList (format_list_resume recommendations))])
    [].

(** What the [Analyze Resume] button handler of [main] does. *)
Inductive outcome :=
| Warned                 (* st.warning about the minimum of 50 words *)
| Displayed (d : dict).  (* display_results(result, analysis_mode) *)

Definition on_analyze (resume_text : text) : M outcome :=
  if Nat.ltb (length (split_ws resume_text)) 50 then ret Warned
  else result <- forward resume_text ;; ret (Displayed result).

End Resume.

Definition resume_keys : list text :=
  [lit "sections"; lit "section_analyses"; lit "overall_summary";
   lit "strengths"; lit "weaknesses"; lit "recommendations"].

(** The language model behind the movie predictors. *)
Record movie_oracle := {
  o_analysis : list call -> text ->
     option (text * text * text * text * text * text * text);
  o_genres : list call -> text -> option text;
  o_recommend : list call -> text -> option (text * text)
}.

(** [AdvancedMovieReviewer.forward] *)
Definition movie_forward (mo : movie_oracle) (review : text) : M dict :=
  catch
    (analysis <- issue (CallAnalysis review) (fun tr => o_analysis mo tr review) ;;
     genres <- issue (CallGenres review) (fun tr => o_genres mo tr review) ;;
     comparisons <- issue (CallRecommend review) (fun tr => o_recommend mo tr review) ;;
     let '(plot_summary, character_analysis, directing_quality, cinematography,
           technical_aspects, cultural_impact, rating) := analysis in
     let '(similar_movies, recommendations) := comparisons in
     rating_v <- lift (parse_rating rating) ;;
     ret [(lit "plot_summary", VStr plot_summary);
          (lit "character_analysis", VStr character_analysis);
          (lit "technical_review",
             VDict [(lit "directing", VStr (rate_quality directing_quality));
                    (lit "cinematography", VStr (rate_quality cinematography));
                    (lit "technical_aspects", VStr (rate_quality technical_aspects))]);
          (lit "cultural_impact", VStr cultural_impact);
          (lit "rating", VNum rating_v);
          (lit "genres", VList (format_genres genres));
          (lit "similar_movies", VList (format_list_movie similar_movies));
          (lit "recommendations", VList (format_list_movie recommendations))])
    [].

Definition movie_keys : list text :=
  [lit "plot_summary"; lit "character_analysis"; lit "technical_review";
   lit "cultural_impact"; lit "rating"; lit "genres"; lit "similar_movies";
   lit "recommendations"].

(* ================================================================== *)
(** * Lemmas *)

Definition no_digit (c : ascii) : Prop := is_digit c = false.
Definition digit (c : ascii) : Prop := is_digit c = true.

(** The character after a digit run is not a digit. *)
Definition stops_digits (r : text) : Prop :=
  match r with [] => True | c :: _ => is_digit c = false end.

(** [x] lies in [[lo, hi]]. *)
Definition in_range (lo hi : Z) (x : pynum) : Prop :=
  let '(a, b) := num_parts x in (0 < b /\ lo * b <= a <= hi * b)%Z.

(** [min(hi, max(lo, f))] *)
Definition clamp (lo hi : Z) (f : pynum) : pynum := py_min (PInt hi) (py_max (PInt lo) f).

(** [sep.join(pieces)] *)
Fixpoint join (sep : ascii) (ps : list text) : text :=
  match ps with
  | [] => []
  | [p] => p
  | p :: r => p ++ sep :: join sep r
  end.

(** The keys of a dict after assigning the keys [l] in order, starting
    from the keys [ks]: an assigned key that is already there keeps its
    place. *)
Definition add_key (ks : list text) (k : text) : list text :=
  if existsb (text_eqb k) ks then ks else ks ++ [k].

Definition uniq_first (l : list text) : list text := fold_left add_key l [].

(** The reading of the spec's [mapQualityToStars]: an ordered list of
    keyword bands, matched case-insensitively as substrings; the first band
    that matches wins, and [Average] is the default. *)
Definition quality_bands : list (text * text) :=
  [(lit "excellent", star5); (lit "good", star4);
   (lit "average", star3); (lit "poor", star2)].

Fixpoint first_band (bands : list (text * text)) (t dflt : text) : text :=
  match bands with
  | [] => dflt
  | (kw, stars) :: rest => if contains kw t then stars else first_band rest t dflt
  end.

Definition map_quality_to_stars (t : text) : text :=
  first_band quality_bands (lower t) star3.

(** Test doubles for the language model. [mock_oracle reply] answers
    Stage 1 with [reply], every unit with a narrative and [8/10], and the
    holistic stage with fixed text. *)
Definition mock_oracle (reply : text) : resume_oracle := {|
  o_sections := fun _ _ => Some reply;
  o_evaluate := fun _ _ _ => Some (lit "Clear and relevant.", lit "8/10");
  o_assess := fun _ _ =>
    Some (lit "Solid resume.", lit "Leadership; Cloud skills",
          lit "Few metrics", lit "Quantify results; Shorten summary")
|}.

(** The same, except that the call for the unit [bad] raises. *)
Definition failing_unit_oracle (reply bad : text) : resume_oracle := {|
  o_sections := fun _ _ => Some reply;
  o_evaluate := fun _ s _ =>
    if text_eqb s bad then None else Some (lit "Clear and relevant.", lit "8/10");
  o_assess := fun _ _ =>
    Some (lit "Solid resume.", lit "Leadership; Cloud skills",
          lit "Few metrics", lit "Quantify results; Shorten summary")
|}.

(* ------------------------------------------------------------------ *)
(** ** [display_results] and the button handlers of the two [main]s *)

(** Python values that can be iterated as strings ([for x in v],
    [sep.join(v)]): a list of strings, a string (its characters), a dict
    (its keys); a number raises [TypeError]. *)
Definition iterable (v : pyval) : bool :=
  match v with VNum _ => false | _ => true end.

Definition is_some {A} (o : option A) : bool :=
  match o with Some _ => true | None => false end.

(** [d.get(k, dflt)] *)
Definition get_or (k : text) (dflt : pyval) (d : dict) : pyval :=
  match dict_get k d with Some v => v | None => dflt end.

(** [v[k]] on a value: only a dict has string keys; [None] is the
    [KeyError] or [TypeError]. *)
Definition subscript (v : pyval) (k : text) : option pyval :=
  match v with VDict d => dict_get k d | _ => None end.

(** [st.progress(score / 10)]: Streamlit accepts a float value in
    [[0.0, 1.0]] and raises otherwise. *)
Definition progress_ok (score : pynum) : bool :=
  let '(a, b) := num_parts score in ((0 <=? a) && (a <=? 10 * b))%Z.

(** The body of the loop over [section_analyses.items()] in
    [ResumeAnalyzer]'s [display_results]: [data["score"]/10] (a number is
    required), the progress bar, and [data["analysis"]] in the detailed
    mode. *)
Definition show_section (detailed : bool) (data : pyval) : bool :=
  match subscript data (lit "score") with
  | Some (VNum x) =>
      progress_ok x && (negb detailed || is_some (subscript data (lit "analysis")))
  | _ => false
  end.

(** [display_results(result, mode)] of [ResumeAnalyzer.py]: [Some tt] when
    it renders without raising.  Every lookup goes through [result.get]
    with a default. *)
Definition display_results_resume (mode : text) (result : dict) : option unit :=
  if iterable (get_or (lit "sections") (VList []) result)
     && match get_or (lit "section_analyses") (VDict []) result with
        | VDict sa =>
            forallb (fun kv => show_section (text_eqb mode (lit "Detailed Evaluation")) (snd kv)) sa
        | _ => false
        end
     && forallb (fun k => iterable (get_or k (VList []) result))
          [lit "strengths"; lit "weaknesses"; lit "recommendations"]
  then Some tt else None.

(** [result[k]] followed by [sep.join(...)] *)
Definition joinable_at (k : text) (d : dict) : bool :=
  match dict_get k d with Some v => iterable v | None => false end.

(** [display_results(result)] of [movieReviewandRecommendation.py]: plain
    subscripts, so a missing key raises [KeyError]. *)
Definition display_results_movie (result : dict) : option unit :=
  if is_some (dict_get (lit "rating") result)
     && joinable_at (lit "genres") result
     && joinable_at (lit "recommendations") result
     && joinable_at (lit "similar_movies") result
     && is_some (dict_get (lit "plot_summary") result)
     && is_some (dict_get (lit "character_analysis") result)
     && match dict_get (lit "technical_review") result with
        | Some tech =>
            forallb (fun k => is_some (subscript tech k))
              [lit "directing"; lit "cinematography"; lit "technical_aspects"]
        | None => false
        end
     && is_some (dict_get (lit "cultural_impact") result)
  then Some tt else None.

(** What a click on the analyze button ends in: the warning, the rendered
    result, or the [st.error] of the handler's [except] branch. *)
Inductive handler_outcome :=
| HWarned
| HShown (result : dict)
| HFailed.

(** The [Analyze Resume] branch of [ResumeAnalyzer.py]'s [main], with the
    mode chosen in the sidebar. *)
Definition main_resume_click (o : resume_oracle) (analysis_mode resume_text : text)
    : M handler_outcome :=
  if Nat.ltb (length (split_ws resume_text)) 50 then ret HWarned
  else catch (result <- forward o resume_text ;;
              _ <- lift (display_results_resume analysis_mode result) ;;
              ret (HShown result)) HFailed.

(** The [Analyze Review] branch of [movieReviewandRecommendation.py]'s
    [main]. *)
Definition main_movie_click (mo : movie_oracle) (review : text) : M handler_outcome :=
  if negb (truthy (strip review)) then ret HWarned
  else catch (result <- movie_forward mo review ;;
              _ <- lift (display_results_movie result) ;;
              ret (HShown result)) HFailed.

(** An entry of [section_analyses] as the loop of [forward] writes it, with
    a score in [[1, 10]]. *)
Definition scored_entry (v : pyval) : Prop :=
  exists an x, v = VDict [(lit "analysis", VStr an); (lit "score", VNum x)] /\ in_range 1 10 x.

(** The dict [AdvancedMovieReviewer.forward] builds from the three replies. *)
Definition movie_result (a1 a2 a3 a4 a5 a6 : text) (x : pynum) (g sm rc : text) : dict :=
  [(lit "plot_summary", VStr a1);
   (lit "character_analysis", VStr a2);
   (lit "technical_review",
      VDict [(lit "directing", VStr (rate_quality a3));
             (lit "cinematography", VStr (rate_quality a4));
             (lit "technical_aspects", VStr (rate_quality a5))]);
   (lit "cultural_impact", VStr a6);
   (lit "rating", VNum x);
   (lit "genres", VList (format_genres g));
   (lit "similar_movies", VList (format_list_movie sm));
   (lit "recommendations", VList (format_list_movie rc))].

(** A resume text of fifty words. *)
Definition fifty_words : text :=
  lit "Senior developer with ten years of Python and cloud work, leading teams of five to ten engineers, shipping SaaS platforms, cutting deploy time by forty percent, mentoring juniors, owning CI pipelines, designing APIs, and writing clear documentation for every service the team runs in production today across three regions and two clouds now.".

(** A test double for the movie predictors. *)
Definition movie_mock (rating genres : text) : movie_oracle := {|
  o_analysis := fun _ _ =>
    Some (lit "A crew leaves Earth.", lit "Cooper is driven.", lit "Excellent pacing",
          lit "good framing", lit "Average sound mix", lit "Lasting.", rating);
  o_genres := fun _ _ => Some genres;
  o_recommend := fun _ _ => Some (lit "Gravity, Contact", lit "Watch in IMAX")
|}.

(** The same, except that the analysis call raises. *)
Definition movie_failing : movie_oracle := {|
  o_analysis := fun _ _ => None;
  o_genres := fun _ _ => Some (lit "drama");
  o_recommend := fun _ _ => Some (lit "Gravity", lit "Watch it")
|}.

(** Each unit call of [secs], issued in turn after the trace [tr], answers. *)
Fixpoint units_answer (o : resume_oracle) (t : text) (tr : list call)
    (secs : list text) : Prop :=
  match secs with
  | [] => True
  | s :: rest =>
      o_evaluate o tr s t <> None /\
      units_answer o t (tr ++ [CallEvaluate s t]) rest
  end.

(** The text holds only ASCII characters; on such text the character
    classes above ([str.isspace], [str.title], [str.lower]) are Python's. *)
Definition ascii_text (s : text) : bool :=
  forallb (fun c => Nat.ltb (nat_of_ascii c) 128) s.

Example rate_quality_ex :
  rate_quality (lit "This was an excellent and good performance") = star5.
Proof. reflexivity. Qed.
Example format_list_ex :
  format_list_resume (lit "a; b ;;c") = [lit "- a"; lit "- b"; lit "- c"].
Proof. reflexivity. Qed.
Example parse_score_ex1 : parse_score (lit "Score: 8/10") = Some (PFloat (lit "8") []).
Proof. reflexivity. Qed.
Example py_str_ex1 : py_str (PFloat (lit "0") (lit "00001")) = lit "1e-05".
Proof. reflexivity. Qed.
Example py_str_ex2 : py_str (PFloat (lit "007") (lit "500")) = lit "7.5".
Proof. reflexivity. Qed.
Example py_str_ex3 : py_str (PFloat (lit "12") (lit "0")) = lit "12.0".
Proof. reflexivity. Qed.
Example py_str_ex4 : py_str (PFloat (lit "0") (lit "0001")) = lit "0.0001".
Proof. reflexivity. Qed.
Example py_str_ex5 : py_str (PFloat (lit "12345678901234567") []) = lit "1.2345678901234567e+16".
Proof. reflexivity. Qed.
Example py_str_ex6 : py_str (PInt 10) = lit "10".
Proof. reflexivity. Qed.

Lemma text_eqb_eq (a b : text) : text_eqb a b = true <-> a = b.
Proof.
  revert b; induction a as [|x a IH]; intros [|y b]; simpl; try easy.
  rewrite andb_true_iff, IH, Ascii.eqb_eq. split.
  - intros [-> ->]; reflexivity.
  - intros H; inversion H; auto.
Qed.

Lemma text_eqb_refl (a : text) : text_eqb a a = true.
Proof. apply text_eqb_eq; reflexivity. Qed.

Lemma take_digits_spec (s d r : text) :
  take_digits s = (d, r) ->
  s = d ++ r /\ Forall digit d /\ stops_digits r.
Proof.
  revert d r; induction s as [|c s IH]; simpl; intros d r H.
  - inversion H; subst; repeat split; constructor.
  - destruct (is_digit c) eqn:Hc.
    + destruct (take_digits s) as [d' r'] eqn:E; inversion H; subst.
      destruct (IH _ _ eq_refl) as (-> & Hd & Hr).
      split; [reflexivity|]. split; [constructor; auto|exact Hr].
    + inversion H; subst. split; [reflexivity|]. split; [constructor|exact Hc].
Qed.

Lemma take_digits_app (d r : text) :
  Forall digit d -> stops_digits r -> take_digits (d ++ r) = (d, r).
Proof.
  intros Hd Hr; induction Hd as [|c d Hc Hd IH]; simpl.
  - destruct r as [|c r]; simpl in *; [reflexivity|]. now rewrite Hr.
  - rewrite Hc, IH; reflexivity.
Qed.

Lemma dot_not_digit : is_digit "."%char = false.
Proof. reflexivity. Qed.

Lemma search_skip (p s : text) :
  Forall no_digit p -> search_number (p ++ s) = search_number s.
Proof.
  induction 1 as [|c p Hc Hp IH]; simpl; auto.
  unfold no_digit in Hc; rewrite Hc; exact IH.
Qed.

(** The first number is an integer literal: the run is not followed by a
    dot. *)
Lemma search_int (d1 r : text) :
  d1 <> [] -> Forall digit d1 -> stops_digits r ->
  match r with c :: _ => c <> "."%char | [] => True end ->
  search_number (d1 ++ r) = Some d1.
Proof.
  intros Hne Hd Hr Hdot; destruct d1 as [|c d1']; [congruence|].
  inversion Hd as [|? ? Hc Hd']; subst.
  cbn [app search_number]; rewrite Hc.
  change (c :: d1' ++ r) with ((c :: d1') ++ r).
  rewrite take_digits_app by auto.
  destruct r as [|x r]; auto.
  destruct (Ascii.eqb_spec x "."%char); congruence.
Qed.

(** The first number has a fractional part. *)
Lemma search_dec (d1 d2 r : text) :
  d1 <> [] -> Forall digit d1 -> Forall digit d2 -> stops_digits r ->
  search_number (d1 ++ "."%char :: d2 ++ r) = Some (d1 ++ "."%char :: d2).
Proof.
  intros Hne Hd Hd2 Hr; destruct d1 as [|c d1']; [congruence|].
  inversion Hd as [|? ? Hc Hd']; subst.
  cbn [app search_number]; rewrite Hc.
  change (c :: d1' ++ "."%char :: d2 ++ r) with ((c :: d1') ++ "."%char :: d2 ++ r).
  rewrite take_digits_app by (auto; exact dot_not_digit).
  simpl Ascii.eqb; cbv iota beta.
  rewrite take_digits_app by auto. reflexivity.
Qed.

Lemma py_float_int (d1 : text) :
  d1 <> [] -> Forall digit d1 -> py_float d1 = Some (PFloat d1 []).
Proof.
  intros Hne Hd; unfold py_float.
  rewrite <- (app_nil_r d1) at 1; rewrite take_digits_app by (auto; exact I).
  destruct d1; [congruence|reflexivity].
Qed.

Lemma py_float_dec (d1 d2 : text) :
  d1 <> [] -> Forall digit d1 -> Forall digit d2 ->
  py_float (d1 ++ "."%char :: d2) = Some (PFloat d1 d2).
Proof.
  intros Hne Hd Hd2; unfold py_float.
  rewrite take_digits_app by (auto; exact dot_not_digit).
  destruct d1 as [|c d1]; [congruence|]. simpl Ascii.eqb; cbv iota beta.
  rewrite <- (app_nil_r d2) at 1; rewrite take_digits_app by (auto; exact I).
  reflexivity.
Qed.

(** What [search_number] returns is a literal [float] accepts. *)
Lemma search_number_token (s tok : text) :
  search_number s = Some tok ->
  exists d1 d2, d1 <> [] /\ Forall digit d1 /\ Forall digit d2 /\
    py_float tok = Some (PFloat d1 d2).
Proof.
  induction s as [|c s IH]; simpl; [discriminate|].
  destruct (is_digit c) eqn:Hc; [|exact IH].
  destruct (take_digits s) as [d r] eqn:E.
  destruct (take_digits_spec _ _ _ E) as (-> & Hd & Hr).
  assert (Hd1 : Forall digit (c :: d)) by (constructor; auto).
  destruct r as [|x r'].
  - intros H; inversion H; subst. exists (c :: d), [].
    repeat split; auto; try congruence.
    exact (py_float_int (c :: d) ltac:(congruence) Hd1).
  - destruct (Ascii.eqb x "."%char) eqn:Hx.
    + destruct (take_digits r') as [d2 r''] eqn:E2.
      destruct (take_digits_spec _ _ _ E2) as (_ & Hd2 & _).
      intros H; inversion H; subst. exists (c :: d), d2.
      repeat split; auto; try congruence.
      exact (py_float_dec (c :: d) d2 ltac:(congruence) Hd1 Hd2).
    + intros H; inversion H; subst. exists (c :: d), [].
      repeat split; auto; try congruence.
      exact (py_float_int (c :: d) ltac:(congruence) Hd1).
Qed.

Lemma den_pos (x : pynum) : (0 < snd (num_parts x))%Z.
Proof. destruct x; simpl; [lia|]. apply Z.pow_pos_nonneg; lia. Qed.

Lemma clamp_in_range (lo hi : Z) (f : pynum) :
  (lo <= hi)%Z -> in_range lo hi (clamp lo hi f).
Proof.
  intros Hle; pose proof (den_pos f) as Hb.
  unfold clamp, py_min, py_max.
  destruct (py_lt (PInt lo) f) eqn:H1;
    [destruct (py_lt f (PInt hi)) eqn:H2 | destruct (py_lt (PInt lo) (PInt hi)) eqn:H2];
    unfold py_lt, in_range in *; simpl num_parts in *;
    destruct (num_parts f) as [a b]; simpl in *;
    rewrite ?Z.ltb_lt, ?Z.ltb_ge in *; nia.
Qed.

Lemma parse_number_cases (lo hi : Z) (s : text) :
  exists x, parse_number lo hi s = Some x /\
    (x = py_min (PInt hi) five \/ exists d1 d2, d1 <> [] /\ Forall digit d1 /\
        Forall digit d2 /\ x = clamp lo hi (PFloat d1 d2)).
Proof.
  unfold parse_number; destruct (search_number s) as [tok|] eqn:E.
  - destruct (search_number_token _ _ E) as (d1 & d2 & Hne & Hd1 & Hd2 & ->).
    simpl. eexists; split; [reflexivity|]. right; exists d1, d2; auto.
  - eexists; split; [reflexivity|]. left; reflexivity.
Qed.

Lemma parse_number_range (lo hi : Z) (s : text) :
  (lo <= 5)%Z -> (lo <= hi)%Z ->
  exists x, parse_number lo hi s = Some x /\ in_range lo hi x.
Proof.
  intros H5 Hle.
  destruct (parse_number_cases lo hi s) as (x & Hx & [->|(d1 & d2 & _ & _ & _ & ->)]).
  - exists (py_min (PInt hi) five); split; auto.
    assert (H50 : num_parts five = (50, 10)%Z) by reflexivity.
    unfold py_min, py_lt, in_range; rewrite H50; simpl num_parts; cbv zeta.
    destruct (Z.ltb_spec 50 (hi * 10)); [rewrite H50|simpl]; lia.
  - eexists; split; [exact Hx|]. now apply clamp_in_range.
Qed.

Lemma parse_number_no_digit (lo hi : Z) (s : text) :
  Forall no_digit s -> parse_number lo hi s = Some (py_min (PInt hi) five).
Proof.
  intros H; unfold parse_number.
  rewrite <- (app_nil_r s), search_skip by exact H. reflexivity.
Qed.

Lemma parse_number_first_int (lo hi : Z) (p d1 r : text) :
  Forall no_digit p -> d1 <> [] -> Forall digit d1 -> stops_digits r ->
  match r with c :: _ => c <> "."%char | [] => True end ->
  parse_number lo hi (p ++ d1 ++ r) = Some (clamp lo hi (PFloat d1 [])).
Proof.
  intros Hp Hne Hd Hr Hdot; unfold parse_number.
  rewrite search_skip, search_int by auto.
  rewrite py_float_int by auto. reflexivity.
Qed.

Lemma parse_number_first_dec (lo hi : Z) (p d1 d2 r : text) :
  Forall no_digit p -> d1 <> [] -> Forall digit d1 -> Forall digit d2 ->
  stops_digits r ->
  parse_number lo hi (p ++ d1 ++ "."%char :: d2 ++ r) =
  Some (clamp lo hi (PFloat d1 d2)).
Proof.
  intros Hp Hne Hd Hd2 Hr; unfold parse_number.
  rewrite search_skip, search_dec by auto.
  rewrite py_float_dec by auto. reflexivity.
Qed.

(* ------------------------------------------------------------------ *)
(** ** Digit strings and [str] of a float *)

Lemma dval_acc (b : text) (x : Z) :
  fold_left (fun a c => (10 * a + digit_val c)%Z) b x =
  (x * 10 ^ Z.of_nat (length b) + dval b)%Z.
Proof.
  unfold dval; revert x; induction b as [|c b IH]; intros x;
    cbn [fold_left length].
  - simpl; lia.
  - rewrite (IH (10 * x + digit_val c)%Z), (IH (10 * 0 + digit_val c)%Z).
    rewrite Nat2Z.inj_succ, Z.pow_succ_r by lia. ring.
Qed.

Lemma dval_app (a b : text) :
  dval (a ++ b) = (dval a * 10 ^ Z.of_nat (length b) + dval b)%Z.
Proof. unfold dval at 1; rewrite fold_left_app; apply dval_acc. Qed.

Lemma dval_cons (c : ascii) (b : text) :
  dval (c :: b) = (digit_val c * 10 ^ Z.of_nat (length b) + dval b)%Z.
Proof. apply (dval_app [c] b). Qed.

Lemma dval_zeros (n : nat) : dval (repeat "0"%char n) = 0%Z.
Proof.
  induction n as [|n IH]; [reflexivity|].
  simpl repeat; rewrite dval_cons, IH. reflexivity.
Qed.

Lemma digit_val_bound (c : ascii) : digit c -> (0 <= digit_val c <= 9)%Z.
Proof.
  unfold digit, is_digit, digit_val; rewrite andb_true_iff, !Nat.leb_le; lia.
Qed.

Lemma digit_val_pos (c : ascii) :
  digit c -> c <> "0"%char -> (1 <= digit_val c)%Z.
Proof.
  unfold digit, is_digit, digit_val; rewrite andb_true_iff, !Nat.leb_le.
  intros [H1 H2] Hc.
  assert (nat_of_ascii c <> 48).
  { intros E; apply Hc; rewrite <- (ascii_nat_embedding c), E; reflexivity. }
  lia.
Qed.

Lemma pow10_pos (n : nat) : (0 < 10 ^ Z.of_nat n)%Z.
Proof. apply Z.pow_pos_nonneg; lia. Qed.

Lemma dval_bound (ds : text) :
  Forall digit ds -> (0 <= dval ds < 10 ^ Z.of_nat (length ds))%Z.
Proof.
  induction 1 as [|c ds Hc Hds IH]; [unfold dval; simpl; lia|].
  rewrite dval_cons; simpl length; rewrite Nat2Z.inj_succ, Z.pow_succ_r by lia.
  pose proof (digit_val_bound c Hc); pose proof (pow10_pos (length ds)). nia.
Qed.

Lemma dval_lead (c : ascii) (ds : text) :
  digit c -> c <> "0"%char -> Forall digit ds ->
  (10 ^ Z.of_nat (length ds) <= dval (c :: ds))%Z.
Proof.
  intros Hc H0 Hds; rewrite dval_cons.
  pose proof (digit_val_pos c Hc H0); pose proof (dval_bound ds Hds).
  pose proof (pow10_pos (length ds)). nia.
Qed.

Lemma pow10_lt_inv (a b : nat) :
  (10 ^ Z.of_nat a < 10 ^ Z.of_nat b)%Z -> a < b.
Proof. intros H; apply Z.pow_lt_mono_r_iff in H; lia. Qed.

Lemma count_zeros_split (l : text) :
  l = repeat "0"%char (count_zeros l) ++ skipn (count_zeros l) l.
Proof.
  induction l as [|c l IH]; [reflexivity|]; simpl.
  destruct (Ascii.eqb_spec c "0"%char) as [->|]; simpl; [f_equal; exact IH|reflexivity].
Qed.

Lemma count_zeros_head (l : text) :
  match skipn (count_zeros l) l with c :: _ => c <> "0"%char | [] => True end.
Proof.
  induction l as [|c l IH]; [exact I|]; simpl.
  destruct (Ascii.eqb_spec c "0"%char); simpl; auto.
Qed.

Lemma strip_trailing_zeros_split (l : text) :
  l = strip_trailing_zeros l ++ repeat "0"%char (count_zeros (rev l)).
Proof.
  unfold strip_trailing_zeros.
  rewrite <- (rev_repeat (count_zeros (rev l))), <- rev_app_distr,
    <- count_zeros_split, rev_involutive. reflexivity.
Qed.

(** A float strictly between 1 and 10 prints as one digit, a dot and at
    least one more digit, with the same value. *)
Lemma float_repr_unit (ip fp : text) :
  Forall digit (ip ++ fp) ->
  (10 ^ Z.of_nat (length fp) < dval (ip ++ fp))%Z ->
  (dval (ip ++ fp) < 10 * 10 ^ Z.of_nat (length fp))%Z ->
  exists d0 ds, float_repr ip fp = d0 :: "."%char :: ds /\ digit d0 /\
    Forall digit ds /\ ds <> [] /\
    (dval (d0 :: ds) * 10 ^ Z.of_nat (length fp) =
     dval (ip ++ fp) * 10 ^ Z.of_nat (length ds))%Z.
Proof.
  intros Hd Hlo Hhi.
  unfold float_repr; cbv zeta.
  pose proof (count_zeros_split (ip ++ fp)) as Hz.
  pose proof (count_zeros_head (ip ++ fp)) as Hh.
  pose proof (strip_trailing_zeros_split
                (skipn (count_zeros (ip ++ fp)) (ip ++ fp))) as Ht.
  pose proof (length_app ip fp) as Hlen.
  set (all := ip ++ fp) in *.
  set (z := count_zeros all) in *.
  set (rest := skipn z all) in *.
  set (t := count_zeros (rev rest)) in *.
  set (sig := strip_trailing_zeros rest) in *.
  clearbody sig t rest z all.
  assert (Hval : dval all = (dval sig * 10 ^ Z.of_nat t)%Z).
  { rewrite Hz, Ht, !dval_app, !dval_zeros, repeat_length. ring. }
  assert (Hlen2 : length all = z + length sig + t).
  { rewrite Hz, Ht, !length_app, !repeat_length; lia. }
  assert (Hdsig : Forall digit sig).
  { rewrite Hz, Ht in Hd. apply Forall_app in Hd as [_ Hd].
    apply Forall_app in Hd as [Hd _]. exact Hd. }
  pose proof (pow10_pos t) as Pt; pose proof (pow10_pos (length fp)) as Pf.
  destruct sig as [|s0 srest].
  - exfalso. unfold dval at 2 in Hval; simpl in Hval. lia.
  - assert (Hs0 : s0 <> "0"%char) by (rewrite Ht in Hh; exact Hh).
    pose proof (dval_lead s0 srest) as Hge.
    pose proof (dval_bound (s0 :: srest) Hdsig) as Hlt.
    pose proof (Forall_inv Hdsig) as Hd0; pose proof (Forall_inv_tail Hdsig) as Hdr.
    specialize (Hge Hd0 Hs0 Hdr).
    assert (Hf : length fp = length srest + t).
    { assert (A1 : (10 ^ Z.of_nat (length fp) <
                    10 ^ Z.of_nat (length (s0 :: srest) + t))%Z).
      { rewrite Nat2Z.inj_add, Z.pow_add_r by lia.
        assert (dval (s0 :: srest) * 10 ^ Z.of_nat t <
                10 ^ Z.of_nat (length (s0 :: srest)) * 10 ^ Z.of_nat t)%Z
          by (apply Z.mul_lt_mono_pos_r; lia).
        lia. }
      assert (A2 : (10 ^ Z.of_nat (length srest + t) <
                    10 ^ Z.of_nat (S (length fp)))%Z).
      { rewrite Nat2Z.inj_add, Z.pow_add_r, Nat2Z.inj_succ, Z.pow_succ_r by lia.
        assert (10 ^ Z.of_nat (length srest) * 10 ^ Z.of_nat t <=
                dval (s0 :: srest) * 10 ^ Z.of_nat t)%Z
          by (apply Z.mul_le_mono_nonneg_r; lia).
        lia. }
      apply pow10_lt_inv in A1, A2; simpl length in A1; lia. }
    assert (Hip : length ip = S z) by (simpl length in Hlen2; lia).
    rewrite Hip.
    replace (Z.of_nat (S z) - Z.of_nat z - 1)%Z with 0%Z by lia.
    simpl.
    destruct srest as [|s1 srest'].
    + exists s0, ["0"%char]. split; [reflexivity|].
      repeat split; auto; try discriminate; [repeat constructor|].
      rewrite Hval, Hf; simpl length. rewrite !dval_cons.
      unfold dval; simpl. ring.
    + exists s0, (s1 :: srest'). split; [reflexivity|].
      repeat split; auto; try discriminate.
      rewrite Hval, Hf, Nat2Z.inj_add, Z.pow_add_r by lia. ring.
Qed.

Lemma py_str_one : parse_score (py_str (PInt 1)) = Some (PInt 1).
Proof. reflexivity. Qed.

Lemma py_str_ten : parse_score (py_str (PInt 10)) = Some (PInt 10).
Proof. reflexivity. Qed.

(* ================================================================== *)
(** * Claims *)

(** C3: [_parse_score] and [_parse_rating] always return a number, within
    [[1, 10]] and [[0, 10]] respectively; on a text without digits both
    return [5.0]; otherwise both clamp the first number of the text (an
    integer, or a decimal with its fractional part) and ignore whatever
    follows it, other numbers included. *)
Theorem parse_score_bounds_first_number :
  (forall s, exists x, parse_score s = Some x /\ in_range 1 10 x) /\
  (forall s, exists x, parse_rating s = Some x /\ in_range 0 10 x) /\
  (forall s, Forall no_digit s ->
     parse_score s = Some five /\ parse_rating s = Some five) /\
  (forall p d1 r, Forall no_digit p -> d1 <> [] -> Forall digit d1 ->
     stops_digits r -> match r with c :: _ => c <> "."%char | [] => True end ->
     parse_score (p ++ d1 ++ r) = Some (clamp 1 10 (PFloat d1 [])) /\
     parse_rating (p ++ d1 ++ r) = Some (clamp 0 10 (PFloat d1 []))) /\
  (forall p d1 d2 r, Forall no_digit p -> d1 <> [] -> Forall digit d1 ->
     Forall digit d2 -> stops_digits r ->
     parse_score (p ++ d1 ++ "."%char :: d2 ++ r) = Some (clamp 1 10 (PFloat d1 d2)) /\
     parse_rating (p ++ d1 ++ "."%char :: d2 ++ r) = Some (clamp 0 10 (PFloat d1 d2))).
Proof.
  split; [|split; [|split; [|split]]].
  - intros s; apply parse_number_range; lia.
  - intros s; apply parse_number_range; lia.
  - intros s Hs; unfold parse_score, parse_rating.
    rewrite !parse_number_no_digit by exact Hs. split; reflexivity.
  - intros; unfold parse_score, parse_rating; split; now apply parse_number_first_int.
  - intros; unfold parse_score, parse_rating; split; now apply parse_number_first_dec.
Qed.

Lemma parse_score_bounds_first_number_witness :
  parse_score (lit "Score: 7.5 (was 9)") = Some (clamp 1 10 (PFloat (lit "7") (lit "5"))) /\
  parse_rating (lit "42 of 100") = Some (clamp 0 10 (PFloat (lit "42") [])) /\
  parse_score (lit "n/a") = Some five.
Proof.
  destruct parse_score_bounds_first_number as (_ & _ & Hnd & Hint & Hdec).
  split; [|split].
  - apply (Hdec (lit "Score: ") (lit "7") (lit "5") (lit " (was 9)"));
      try discriminate; repeat constructor.
  - apply (Hint [] (lit "42") (lit " of 100")); try discriminate; repeat constructor.
  - apply (Hnd (lit "n/a")); repeat constructor.
Defined.

(* ------------------------------------------------------------------ *)
(** ** Binary64 rounding and the shortest [repr] *)

Lemma ltb_scale (k x y : Z) : (0 < k)%Z -> (k * x <? k * y)%Z = (x <? y)%Z.
Proof.
  intros Hk; destruct (Z.ltb_spec (k * x) (k * y)), (Z.ltb_spec x y); auto; nia.
Qed.

Lemma eqb_scale (k x y : Z) : (0 < k)%Z -> (k * x =? k * y)%Z = (x =? y)%Z.
Proof.
  intros Hk; destruct (Z.eqb_spec (k * x) (k * y)), (Z.eqb_spec x y); auto; nia.
Qed.

(** [round64] depends only on the value of the fraction. *)
Lemma round_at_scale (k a b E : Z) :
  (0 < k)%Z -> (0 < b)%Z -> round_at (k * a) (k * b) E = round_at a b E.
Proof.
  intros Hk Hb; unfold round_at.
  assert (Hp : (0 < 2 ^ Z.abs E)%Z) by (apply Z.pow_pos_nonneg; lia).
  destruct (0 <=? E)%Z eqn:HE.
  - replace (k * b * 2 ^ E)%Z with (k * (b * 2 ^ E))%Z by ring.
    assert (0 < 2 ^ E)%Z by (apply Z.pow_pos_nonneg; lia).
    rewrite Z.div_mul_cancel_l, Z.mul_mod_distr_l by lia.
    replace (2 * (k * (a mod (b * 2 ^ E))))%Z with (k * (2 * (a mod (b * 2 ^ E))))%Z
      by ring.
    rewrite ltb_scale, eqb_scale by lia. reflexivity.
  - replace (k * a * 2 ^ (- E))%Z with (k * (a * 2 ^ (- E)))%Z by ring.
    rewrite Z.div_mul_cancel_l, Z.mul_mod_distr_l by lia.
    replace (2 * (k * ((a * 2 ^ (- E)) mod b)))%Z with (k * (2 * ((a * 2 ^ (- E)) mod b)))%Z
      by ring.
    rewrite ltb_scale, eqb_scale by lia. reflexivity.
Qed.

Lemma round64_scale (k a b : Z) :
  (0 < k)%Z -> (0 < b)%Z -> round64 (k * a) (k * b) = round64 a b.
Proof.
  intros Hk Hb; unfold round64, flog2.
  replace (k * a * 2 ^ 1100)%Z with (k * (a * 2 ^ 1100))%Z by ring.
  rewrite Z.div_mul_cancel_l, round_at_scale by lia.
  replace (k * a =? 0)%Z with (a =? 0)%Z
    by (destruct (Z.eqb_spec a 0), (Z.eqb_spec (k * a) 0); auto; nia).
  reflexivity.
Qed.

Lemma round64_eq (a b a' b' : Z) :
  (0 < b)%Z -> (0 < b')%Z -> (a * b' = a' * b)%Z ->
  round64 a b = round64 a' b'.
Proof.
  intros Hb Hb' H.
  rewrite <- (round64_scale b' a b), <- (round64_scale b a' b') by lia.
  f_equal; lia.
Qed.

(** [round_at] gives [q] when [a / b / 2^E] is within half of it. *)
Lemma round_at_near (a b E n d q : Z) :
  (if (0 <=? E)%Z then (a, b * 2 ^ E)%Z else (a * 2 ^ (- E), b)%Z) = (n, d) ->
  (0 < d)%Z -> (2 * Z.abs (n - q * d) < d)%Z ->
  round_at a b E = q.
Proof.
  intros Hnd Hd Hq; unfold round_at; rewrite Hnd.
  destruct (Z_le_gt_dec (q * d) n) as [Hle|Hgt].
  - assert (Hq1 : (n / d)%Z = q)
      by (symmetry; apply (Z.div_unique_pos n d q (n - q * d)); lia).
    assert (Hr : (n mod d)%Z = (n - q * d)%Z)
      by (symmetry; apply (Z.mod_unique_pos n d q (n - q * d)); lia).
    rewrite Hq1, Hr.
    destruct (Z.ltb_spec d (2 * (n - q * d))); [lia|].
    destruct (Z.eqb_spec (2 * (n - q * d)) d); [lia|]. reflexivity.
  - assert (Hq1 : (n / d)%Z = (q - 1)%Z)
      by (symmetry; apply (Z.div_unique_pos n d (q - 1) (n - (q - 1) * d)); lia).
    assert (Hr : (n mod d)%Z = (n - (q - 1) * d)%Z)
      by (symmetry; apply (Z.mod_unique_pos n d (q - 1) (n - (q - 1) * d)); lia).
    rewrite Hq1, Hr.
    destruct (Z.ltb_spec d (2 * (n - (q - 1) * d))); [simpl; lia|lia].
Qed.

Lemma round_at_floor (a b E n d : Z) :
  (if (0 <=? E)%Z then (a, b * 2 ^ E)%Z else (a * 2 ^ (- E), b)%Z) = (n, d) ->
  round_at a b E = (n / d)%Z \/ round_at a b E = (n / d + 1)%Z.
Proof.
  intros Hnd; unfold round_at; rewrite Hnd.
  destruct (_ || _); auto.
Qed.

Lemma log2_bounds (y : Z) : (0 <= y)%Z -> (y < 2 ^ (Z.log2 y + 1))%Z.
Proof.
  intros Hy; destruct (Z.eq_dec y 0) as [->|Hne]; [reflexivity|].
  destruct (Z.log2_spec y) as [_ H]; [lia|]. rewrite Z.add_1_r; exact H.
Qed.

Lemma pow2_split (x y : Z) : (0 <= x)%Z -> (0 <= y)%Z -> (2 ^ (x + y) = 2 ^ x * 2 ^ y)%Z.
Proof. intros; apply Z.pow_add_r; lia. Qed.

(** A fraction within a quarter of a unit in the last place of the normal
    float [m * 2^e] rounds to it. *)
Lemma round64_near (m e a b : Z) :
  (2 ^ 52 <= m < 2 ^ 53)%Z -> (-1074 <= e <= -1)%Z -> (0 < a)%Z -> (0 < b)%Z ->
  (4 * Z.abs (a * 2 ^ (- e) - m * b) < b)%Z ->
  round64 a b = B64 m e.
Proof.
  intros Hm He Ha Hb Hnear.
  set (P := (2 ^ (- e))%Z) in *.
  assert (HP : (0 < P)%Z) by (apply Z.pow_pos_nonneg; lia).
  assert (H52 : (0 < 2 ^ 52)%Z) by reflexivity.
  assert (Hlo : (2 ^ 51 * b < a * P)%Z).
  { replace (2 ^ 52)%Z with (2 * 2 ^ 51)%Z in Hm by reflexivity. nia. }
  assert (Hhi : (a * P < 2 ^ 53 * b)%Z) by nia.
  set (T := (2 ^ (1100 + e))%Z).
  assert (HT : (0 < T)%Z) by (apply Z.pow_pos_nonneg; lia).
  assert (HaT : (a * 2 ^ 1100 = a * P * T)%Z).
  { unfold P, T; rewrite <- Z.mul_assoc, <- Z.pow_add_r by lia. f_equal; f_equal; lia. }
  set (y := (a * 2 ^ 1100 / b)%Z).
  assert (Hy1 : (2 ^ 51 * T <= y)%Z).
  { apply Z.div_le_lower_bound; [lia|]. rewrite HaT. nia. }
  assert (Hy2 : (y < 2 ^ 53 * T)%Z).
  { apply Z.div_lt_upper_bound; [lia|]. rewrite HaT. nia. }
  assert (E51 : (2 ^ 51 * T = 2 ^ (1151 + e))%Z).
  { unfold T; rewrite <- Z.pow_add_r by lia. f_equal; lia. }
  assert (E53 : (2 ^ 53 * T = 2 ^ (1153 + e))%Z).
  { unfold T; rewrite <- Z.pow_add_r by lia. f_equal; lia. }
  assert (HL1 : (1151 + e <= Z.log2 y)%Z).
  { rewrite <- (Z.log2_pow2 (1151 + e)) by lia. apply Z.log2_le_mono; lia. }
  assert (HL2 : (Z.log2 y < 1153 + e)%Z).
  { apply Z.log2_lt_pow2; lia. }
  (* at exponent [e] the quotient rounds to [m] *)
  assert (Hat : round_at a b e = m).
  { apply (round_at_near a b e (a * P) b m); [|lia|lia].
    destruct (Z.leb_spec 0 e); [lia|reflexivity]. }
  unfold round64.
  destruct (Z.eqb_spec a 0) as [|_]; [lia|].
  unfold flog2; fold y.
  destruct (Z.eq_dec (Z.log2 y) (1152 + e)) as [Hl|Hl].
  - rewrite Hl. replace (Z.max (1152 + e - 1100 - 52) (-1074))%Z with e by lia.
    rewrite Hat.
    destruct (Z.eqb_spec m (2 ^ 53)); [lia|].
    destruct (Z.ltb_spec 971 e); [lia|reflexivity].
  - assert (Hl' : Z.log2 y = (1151 + e)%Z) by lia. rewrite Hl'.
    (* the quotient lies below [2^52]: [m] is [2^52] *)
    assert (Hy3 : (y < 2 ^ 52 * T)%Z).
    { assert (E52 : (2 ^ 52 * T = 2 ^ (1151 + e + 1))%Z).
      { unfold T; rewrite <- Z.pow_add_r by lia. f_equal; lia. }
      rewrite E52, <- Hl'. apply log2_bounds. apply Z.div_pos; lia. }
    assert (Hb2 : (a * P < 2 ^ 52 * b)%Z).
    { destruct (Z_lt_le_dec (a * P) (2 ^ 52 * b)) as [|Hge]; [assumption|].
      exfalso. assert (2 ^ 52 * T <= y)%Z; [|lia].
      apply Z.div_le_lower_bound; [lia|]. rewrite HaT. nia. }
    assert (Hm52 : m = (2 ^ 52)%Z) by nia. rewrite Hm52 in *.
    destruct (Z.eq_dec e (-1074)) as [->|Hne].
    + replace (Z.max (1151 + -1074 - 1100 - 52) (-1074))%Z with (-1074)%Z by lia.
      rewrite Hat. reflexivity.
    + replace (Z.max (1151 + e - 1100 - 52) (-1074))%Z with (e - 1)%Z by lia.
      assert (Hat2 : round_at a b (e - 1) = (2 ^ 53)%Z).
      { apply (round_at_near a b (e - 1) (a * (2 * P)) b); [|lia|].
        - destruct (Z.leb_spec 0 (e - 1)); [lia|].
          unfold P; f_equal; f_equal.
          replace (- (e - 1))%Z with (1 + - e)%Z by lia.
          rewrite Z.pow_add_r by lia. reflexivity.
        - replace (2 ^ 53)%Z with (2 * 2 ^ 52)%Z by reflexivity. lia. }
      rewrite Hat2, Z.eqb_refl.
      destruct (Z.ltb_spec 971 (e - 1 + 1)); [lia|].
      f_equal; lia.
Qed.

Lemma pow2_le_mono (x y : Z) : (0 <= x <= y)%Z -> (2 ^ x <= 2 ^ y)%Z.
Proof. intros; apply Z.pow_le_mono_r; lia. Qed.

(** The significand [round64] produces is below [2^53], and at least
    [2^52] unless the exponent is the subnormal one. *)
Lemma round64_shape (a b m e : Z) :
  (0 < a)%Z -> (0 < b)%Z -> round64 a b = B64 m e ->
  (2 ^ 52 <= m < 2 ^ 53)%Z \/ (e = -1074 /\ 0 <= m <= 2 ^ 52)%Z.
Proof.
  intros Ha Hb H; unfold round64, flog2 in H.
  destruct (Z.eqb_spec a 0) as [|_]; [lia|].
  set (y := (a * 2 ^ 1100 / b)%Z) in H.
  set (L := Z.log2 y) in H.
  assert (Hy0 : (0 <= y)%Z) by (apply Z.div_pos; lia).
  assert (Hab : (a * 2 ^ 1100 < b * (y + 1))%Z)
    by (unfold y; rewrite Z.add_1_r; apply Z.mul_succ_div_gt; lia).
  assert (Hby : (b * y <= a * 2 ^ 1100)%Z) by (apply Z.mul_div_le; lia).
  assert (HyL : (y < 2 ^ (L + 1))%Z) by (apply log2_bounds; lia).
  assert (HL0 : (0 <= L)%Z) by (apply Z.log2_nonneg).
  destruct (Z_le_gt_dec 78 L) as [HA|HB].
  - (* normal range *)
    replace (Z.max (L - 1100 - 52) (-1074))%Z with (L - 1152)%Z in H by lia.
    assert (Hy1 : (2 ^ L <= y)%Z).
    { destruct (Z.log2_spec y) as [H1 _]; [|exact H1].
      destruct (Z.eq_dec y 0) as [E0|]; [|lia]. unfold L in HA; rewrite E0 in HA; simpl in HA; lia. }
    set (E := (L - 1152)%Z) in H.
    destruct (if (0 <=? E)%Z then (a, b * 2 ^ E)%Z else (a * 2 ^ (- E), b)%Z)
      as [n d] eqn:Hnd.
    assert (Hq : (2 ^ 52 * d <= n < 2 ^ 53 * d)%Z /\ (0 < d)%Z).
    { destruct (Z.leb_spec 0 E) as [HE|HE]; injection Hnd as <- <-.
      - assert (HpE : (0 < 2 ^ E)%Z) by (apply Z.pow_pos_nonneg; lia).
        assert (HL : (2 ^ L = 2 ^ 52 * 2 ^ E * 2 ^ 1100)%Z).
        { rewrite <- !Z.pow_add_r by lia. f_equal; unfold E; lia. }
        assert (HL1 : (2 ^ (L + 1) = 2 ^ 53 * 2 ^ E * 2 ^ 1100)%Z).
        { rewrite <- !Z.pow_add_r by lia. f_equal; unfold E; lia. }
        assert (H1100 : (0 < 2 ^ 1100)%Z) by reflexivity.
        split; [|nia]. split.
        + apply (Z.mul_le_mono_pos_r _ _ (2 ^ 1100)); [lia|]. nia.
        + apply (Z.mul_lt_mono_pos_r (2 ^ 1100)); [lia|]. nia.
      - assert (HpE : (0 < 2 ^ (E + 1100))%Z) by (apply Z.pow_pos_nonneg; lia).
        assert (HL : (2 ^ L = 2 ^ 52 * 2 ^ (E + 1100))%Z).
        { rewrite <- !Z.pow_add_r by lia. f_equal; unfold E; lia. }
        assert (HL1 : (2 ^ (L + 1) = 2 ^ 53 * 2 ^ (E + 1100))%Z).
        { rewrite <- !Z.pow_add_r by lia. f_equal; unfold E; lia. }
        assert (H1100 : (2 ^ 1100 = 2 ^ (- E) * 2 ^ (E + 1100))%Z).
        { rewrite <- !Z.pow_add_r by lia. f_equal; lia. }
        split; [|lia]. split.
        + apply (Z.mul_le_mono_pos_r _ _ (2 ^ (E + 1100))); [lia|]. nia.
        + apply (Z.mul_lt_mono_pos_r (2 ^ (E + 1100))); [lia|]. nia. }
    destruct Hq as [[Hq1 Hq2] Hd].
    assert (Hlo : (2 ^ 52 <= n / d)%Z) by (apply Z.div_le_lower_bound; lia).
    assert (Hhi : (n / d < 2 ^ 53)%Z) by (apply Z.div_lt_upper_bound; lia).
    destruct (round_at_floor a b E n d Hnd) as [Hr|Hr]; rewrite Hr in H;
      destruct (Z.eqb_spec (n / d + 1) (2 ^ 53)) as [Heq|Hne] || destruct (Z.eqb_spec (n / d) (2 ^ 53)) as [Heq|Hne];
      repeat match goal with
      | H : context [if ?c then _ else _] |- _ => destruct c
      end; try discriminate H; injection H as <- <-; left;
      try (split; [reflexivity|reflexivity]); lia.
  - (* subnormal range *)
    replace (Z.max (L - 1100 - 52) (-1074))%Z with (-1074)%Z in H by lia.
    assert (Hy2 : (y < 2 ^ 78)%Z).
    { apply (Z.lt_le_trans _ _ _ HyL). apply pow2_le_mono; lia. }
    assert (Hn : (a * 2 ^ 1074 < 2 ^ 52 * b)%Z).
    { assert (E1 : (2 ^ 1100 = 2 ^ 1074 * 2 ^ 26)%Z) by reflexivity.
      assert (E2 : (2 ^ 78 = 2 ^ 52 * 2 ^ 26)%Z) by reflexivity.
      apply (Z.mul_lt_mono_pos_r (2 ^ 26)); [reflexivity|]. nia. }
    destruct (round_at_floor a b (-1074) (a * 2 ^ 1074) b eq_refl) as [Hr|Hr];
      rewrite Hr in H.
    + assert (0 <= a * 2 ^ 1074 / b < 2 ^ 52)%Z.
      { split; [apply Z.div_pos; lia|apply Z.div_lt_upper_bound; lia]. }
      destruct (Z.eqb_spec (a * 2 ^ 1074 / b) (2 ^ 53)); [lia|].
      simpl in H; injection H as <- <-. right; lia.
    + assert (0 <= a * 2 ^ 1074 / b < 2 ^ 52)%Z.
      { split; [apply Z.div_pos; lia|apply Z.div_lt_upper_bound; lia]. }
      destruct (Z.eqb_spec (a * 2 ^ 1074 / b + 1) (2 ^ 53)); [lia|].
      simpl in H; injection H as <- <-. right; lia.
Qed.

(** A float strictly between 1 and 10 has a 53-bit significand and an
    exponent in [[-52, -49]]. *)
Lemma unit_float_shape (m e u v : Z) :
  (2 ^ 52 <= m < 2 ^ 53)%Z \/ (e = -1074 /\ 0 <= m <= 2 ^ 52)%Z ->
  f64_ratio m e = (u, v) -> (v < u < 10 * v)%Z ->
  (2 ^ 52 <= m < 2 ^ 53)%Z /\ (-52 <= e <= -49)%Z /\ u = m /\ v = (2 ^ (- e))%Z.
Proof.
  intros Hm Hr Huv; unfold f64_ratio in Hr.
  destruct (Z.leb_spec 0 e) as [He|He].
  - injection Hr as <- <-.
    assert (1 <= 2 ^ e)%Z by (apply (pow2_le_mono 0); lia).
    exfalso. destruct Hm as [Hm|[-> Hm]]; [|lia].
    assert (10 < 2 ^ 52)%Z by reflexivity. nia.
  - injection Hr as <- <-.
    destruct Hm as [Hm|[-> Hm]].
    + split; [exact Hm|]. split; [|auto].
      split.
      * destruct (Z_le_gt_dec (-52) e); [assumption|].
        assert (2 ^ 53 <= 2 ^ (- e))%Z by (apply pow2_le_mono; lia). lia.
      * destruct (Z_le_gt_dec e (-49)); [assumption|].
        assert (2 ^ (- e) <= 2 ^ 48)%Z by (apply pow2_le_mono; lia).
        assert (10 * 2 ^ 48 < 2 ^ 52)%Z by reflexivity. lia.
    + exfalso. assert (2 ^ 52 < 2 ^ 1074)%Z by reflexivity. simpl in Huv. lia.
Qed.

Lemma digit_char (k : Z) :
  (0 <= k < 10)%Z ->
  digit (ascii_of_nat (48 + Z.to_nat k)) /\
  digit_val (ascii_of_nat (48 + Z.to_nat k)) = k.
Proof.
  intros Hk; unfold digit, is_digit, digit_val.
  rewrite nat_ascii_embedding by lia.
  split; [apply andb_true_iff; split; apply Nat.leb_le; lia|lia].
Qed.

Lemma digits_n_length (n : nat) (c : Z) : length (digits_n n c) = n.
Proof.
  revert c; induction n as [|n IH]; intros c; [reflexivity|].
  simpl digits_n; rewrite length_app, IH; simpl; lia.
Qed.

Lemma digits_n_digit (n : nat) (c : Z) : Forall digit (digits_n n c).
Proof.
  revert c; induction n as [|n IH]; intros c; [constructor|].
  simpl digits_n; apply Forall_app; split; [apply IH|].
  constructor; [|constructor].
  apply digit_char, Z.mod_pos_bound; lia.
Qed.

Lemma digits_n_val (n : nat) (c : Z) :
  (0 <= c < 10 ^ Z.of_nat n)%Z -> dval (digits_n n c) = c.
Proof.
  revert c; induction n as [|n IH]; intros c Hc.
  - simpl in Hc; unfold dval; simpl; lia.
  - cbn [digits_n]; rewrite dval_app, IH.
    + destruct (digit_char (c mod 10)) as [_ Hv]; [apply Z.mod_pos_bound; lia|].
      set (ch := ascii_of_nat (48 + Z.to_nat (c mod 10))) in *.
      assert (Hch : dval [ch] = digit_val ch) by (unfold dval; simpl; lia).
      rewrite Hch, Hv. simpl length. change (10 ^ Z.of_nat 1)%Z with 10%Z.
      pose proof (Z.div_mod c 10); lia.
    + rewrite Nat2Z.inj_succ, Z.pow_succ_r in Hc by lia.
      split; [apply Z.div_pos; lia|apply Z.div_lt_upper_bound; lia].
Qed.

Lemma dec_text_nonpos (c sc : Z) :
  (sc <= 0)%Z ->
  exists ip fp, dec_text c sc = (ip, fp) /\
    ip ++ fp = digits_n (18 + Z.to_nat (- sc)) c /\
    length fp = Z.to_nat (- sc).
Proof.
  intros Hsc; unfold dec_text.
  destruct (Z.leb_spec 0 sc) as [H0|H0].
  - replace sc with 0%Z by lia. simpl.
    eexists _, _; split; [reflexivity|]. split; [|reflexivity].
    rewrite !app_nil_r. reflexivity.
  - eexists _, _; split; [reflexivity|]. split; [apply firstn_skipn|].
    rewrite length_skipn, digits_n_length. lia.
Qed.

Lemma e10_from_unit (fuel : nat) (s m P : Z) :
  (0 < P)%Z -> (P < m < 10 * P)%Z -> (0 <= s)%Z -> (Z.to_nat s < fuel)%nat ->
  e10_from fuel s m P = 0%Z.
Proof.
  revert s; induction fuel as [|fuel IH]; intros s HP Hm Hs Hf; [lia|].
  simpl; unfold pow10_le.
  destruct (Z.leb_spec 0 s) as [_|]; [|lia].
  destruct (Z.eq_dec s 0) as [->|Hne].
  - rewrite Z.pow_0_r, Z.mul_1_l. destruct (Z.leb_spec P m); [reflexivity|lia].
  - assert (10 <= 10 ^ s)%Z.
    { rewrite <- (Z.pow_1_r 10) at 1. apply Z.pow_le_mono_r; lia. }
    destruct (Z.leb_spec (10 ^ s * P) m); [nia|].
    apply IH; lia.
Qed.

Lemma pick_cases (a b sc lo : Z) : pick a b sc lo = lo \/ pick a b sc lo = (lo + 1)%Z.
Proof.
  unfold pick; destruct (scaled a b sc); destruct (_ ?= _)%Z; auto.
  destruct (Z.even lo); auto.
Qed.

Lemma shortest_from_some (fuel : nat) (sc a b : Z) (x : f64) (c sc' : Z) :
  shortest_from fuel sc a b x = Some (c, sc') ->
  f64_eqb (round_dec c sc') x = true /\
  (sc - Z.of_nat fuel < sc' <= sc)%Z /\
  (c = floor_at a b sc' \/ c = (floor_at a b sc' + 1)%Z).
Proof.
  revert sc; induction fuel as [|fuel IH]; intros sc H; [discriminate|].
  simpl in H.
  destruct (f64_eqb (round_dec (floor_at a b sc) sc) x) eqn:H1,
    (f64_eqb (round_dec (floor_at a b sc + 1) sc) x) eqn:H2.
  - injection H as <- <-. destruct (pick_cases a b sc (floor_at a b sc)) as [E|E];
      rewrite E; repeat split; auto; lia.
  - injection H as <- <-. repeat split; auto; lia.
  - injection H as <- <-. repeat split; auto; lia.
  - destruct (IH _ H) as (Hx & Hr & Hc). repeat split; auto; lia.
Qed.

Lemma shortest_from_found (fuel : nat) (sc a b : Z) (x : f64) (j : nat) :
  (j < fuel)%nat ->
  f64_eqb (round_dec (floor_at a b (sc - Z.of_nat j)) (sc - Z.of_nat j)) x = true \/
  f64_eqb (round_dec (floor_at a b (sc - Z.of_nat j) + 1) (sc - Z.of_nat j)) x = true ->
  shortest_from fuel sc a b x <> None.
Proof.
  revert sc j; induction fuel as [|fuel IH]; intros sc j Hj Hok; [lia|].
  simpl.
  destruct (f64_eqb (round_dec (floor_at a b sc) sc) x) eqn:H1,
    (f64_eqb (round_dec (floor_at a b sc + 1) sc) x) eqn:H2; try discriminate.
  destruct j as [|j].
  - rewrite Z.sub_0_r in Hok. destruct Hok; congruence.
  - apply (IH _ j); [lia|].
    replace (sc - 1 - Z.of_nat j)%Z with (sc - Z.of_nat (S j))%Z by lia. exact Hok.
Qed.

Lemma f64_eqb_refl (x : f64) : f64_eqb x x = true.
Proof.
  unfold f64_eqb, py_eqb64; destruct x as [m e|]; simpl; [|reflexivity].
  destruct (f64_ratio m e); apply Z.eqb_refl.
Qed.

Lemma round_dec_nonpos (c sc : Z) :
  (sc <= 0)%Z -> round_dec c sc = round64 c (10 ^ (- sc)).
Proof.
  intros H; unfold round_dec.
  destruct (Z.leb_spec 0 sc); [|reflexivity].
  replace sc with 0%Z by lia. simpl. rewrite Z.mul_1_r. reflexivity.
Qed.

Lemma floor_at_nonpos (a b sc : Z) :
  (sc <= 0)%Z -> floor_at a b sc = (a * 10 ^ (- sc) / b)%Z.
Proof.
  intros H; unfold floor_at, scaled.
  destruct (Z.leb_spec 0 sc); [|reflexivity].
  replace sc with 0%Z by lia. simpl. rewrite !Z.mul_1_r. reflexivity.
Qed.

(** Seventeen significant digits always read back as the float. *)
Lemma seventeen_digits (m e : Z) :
  (2 ^ 52 <= m < 2 ^ 53)%Z -> (-52 <= e <= -1)%Z ->
  f64_eqb (round_dec (floor_at m (2 ^ (- e)) (-16)) (-16)) (B64 m e) = true \/
  f64_eqb (round_dec (floor_at m (2 ^ (- e)) (-16) + 1) (-16)) (B64 m e) = true.
Proof.
  intros Hm He.
  rewrite floor_at_nonpos, !round_dec_nonpos by lia. simpl (- -16)%Z.
  set (P := (2 ^ (- e))%Z).
  assert (HP : (0 < P)%Z) by (apply Z.pow_pos_nonneg; lia).
  assert (HP52 : (P <= 2 ^ 52)%Z) by (apply pow2_le_mono; lia).
  assert (Hsmall : (2 * 2 ^ 52 < 10 ^ 16)%Z) by reflexivity.
  assert (HmP : (P <= m)%Z) by lia.
  set (N := (m * 10 ^ 16)%Z).
  pose proof (Z.div_mod N P ltac:(lia)) as HN.
  pose proof (Z.mod_pos_bound N P HP) as Hr.
  assert (Hlo : (1 <= N / P)%Z).
  { apply Z.div_le_lower_bound; [lia|]. unfold N. assert (1 < 10 ^ 16)%Z by reflexivity. nia. }
  destruct (Z_le_gt_dec (2 * (N mod P)) P) as [Hle|Hgt].
  - left. rewrite (round64_near m e (N / P) (10 ^ 16)) by (try lia; fold P; unfold N in *; lia).
    apply f64_eqb_refl.
  - right. rewrite (round64_near m e (N / P + 1) (10 ^ 16)) by (try lia; fold P; unfold N in *; lia).
    apply f64_eqb_refl.
Qed.

Lemma f64_ratio_den (m e : Z) : (0 < snd (f64_ratio m e))%Z.
Proof.
  unfold f64_ratio; destruct (Z.leb_spec 0 e); simpl; [lia|].
  apply Z.pow_pos_nonneg; lia.
Qed.

(** A float equal to [m * 2^e], strictly between 1 and 10, is kept by the
    clamp to [[1, 10]]. *)
Lemma clamp64_unit (y : f64) (m e : Z) :
  (e < 0)%Z -> (2 ^ (- e) < m < 10 * 2 ^ (- e))%Z ->
  f64_eqb y (B64 m e) = true ->
  py_min64 (PInt64 10) (py_max64 (PInt64 1) (PFlt y)) = PFlt y.
Proof.
  intros He Hm Hy.
  destruct y as [m' e'|]; [|discriminate].
  unfold f64_eqb, py_eqb64 in Hy; simpl ratio64 in Hy.
  assert (Hr : f64_ratio m e = (m, 2 ^ (- e))%Z)
    by (unfold f64_ratio; destruct (Z.leb_spec 0 e); [lia|reflexivity]).
  rewrite Hr in Hy.
  pose proof (f64_ratio_den m' e') as Hv.
  destruct (f64_ratio m' e') as [u v] eqn:Huv; simpl in Hv.
  apply Z.eqb_eq in Hy.
  assert (HP : (0 < 2 ^ (- e))%Z) by (apply Z.pow_pos_nonneg; lia).
  unfold py_max64, py_min64, py_lt64; cbn [ratio64]; rewrite ?Huv.
  destruct (Z.ltb_spec (1 * v) (u * 1)) as [_|H1]; [|nia].
  cbn [ratio64]; rewrite ?Huv.
  destruct (Z.ltb_spec (u * 1) (10 * v)) as [_|H2]; [reflexivity|nia].
Qed.

(** [repr] of a float strictly between 1 and 10 parses back, through
    [_parse_score], to an equal float. *)
Lemma repr64_unit (m e : Z) :
  (2 ^ 52 <= m < 2 ^ 53)%Z -> (-52 <= e <= -49)%Z ->
  (2 ^ (- e) < m < 10 * 2 ^ (- e))%Z ->
  exists y, parse_score64 (repr64 (B64 m e)) = Some (PFlt y) /\
    f64_eqb y (B64 m e) = true.
Proof.
  intros Hm He Hv.
  set (P := (2 ^ (- e))%Z) in *.
  assert (HP : (0 < P)%Z) by (apply Z.pow_pos_nonneg; lia).
  unfold repr64.
  destruct (Z.eqb_spec m 0) as [|_]; [lia|].
  assert (Hr : f64_ratio m e = (m, P))
    by (unfold f64_ratio; destruct (Z.leb_spec 0 e); [lia|reflexivity]).
  rewrite Hr.
  rewrite (e10_from_unit 700 309 m P) by (auto; lia).
  destruct (shortest_from 17 0 m P (B64 m e)) as [[c sc]|] eqn:Hs.
  2:{ exfalso; refine (shortest_from_found 17 0 m P (B64 m e) 16 _ _ Hs); [lia|].
      exact (seventeen_digits m e Hm ltac:(lia)). }
  destruct (shortest_from_some _ _ _ _ _ _ _ Hs) as (Hok & Hsc & Hc).
  simpl Z.of_nat in Hsc.
  rewrite floor_at_nonpos in Hc by lia.
  rewrite round_dec_nonpos in Hok by lia.
  set (n := Z.to_nat (- sc)).
  assert (HW : (10 ^ (- sc) = 10 ^ Z.of_nat n)%Z) by (unfold n; rewrite Z2Nat.id by lia; reflexivity).
  rewrite HW in Hc, Hok.
  set (W := (10 ^ Z.of_nat n)%Z) in *.
  assert (HW0 : (0 < W)%Z) by apply pow10_pos.
  assert (HW17 : (W <= 10 ^ 16)%Z) by (apply Z.pow_le_mono_r; lia).
  assert (Hlo1 : (W <= m * W / P)%Z) by (apply Z.div_le_lower_bound; nia).
  assert (Hlo2 : (m * W / P < 10 * W)%Z) by (apply Z.div_lt_upper_bound; nia).
  (* [c] is neither [10^n] nor [10^(n+1)]: those read back as 1 and 10 *)
  assert (Hc1 : c <> W).
  { intros ->. rewrite (round64_eq W W 1 1) in Hok by lia.
    change (round64 1 1) with (B64 4503599627370496 (-52)) in Hok.
    unfold f64_eqb, py_eqb64 in Hok; cbn [ratio64] in Hok; rewrite Hr in Hok.
    change (f64_ratio 4503599627370496 (-52))
      with (4503599627370496, 4503599627370496)%Z in Hok.
    cbv beta iota in Hok; apply Z.eqb_eq in Hok. lia. }
  assert (Hc2 : c <> (10 * W)%Z).
  { intros ->. rewrite (round64_eq (10 * W) W 10 1) in Hok by lia.
    change (round64 10 1) with (B64 5629499534213120 (-49)) in Hok.
    unfold f64_eqb, py_eqb64 in Hok; cbn [ratio64] in Hok; rewrite Hr in Hok.
    change (f64_ratio 5629499534213120 (-49))
      with (5629499534213120, 562949953421312)%Z in Hok.
    cbv beta iota in Hok; apply Z.eqb_eq in Hok. lia. }
  assert (Hcb : (W < c < 10 * W)%Z) by lia.
  destruct (dec_text_nonpos c sc ltac:(lia)) as (ip & fp & Hdec & Hipfp & Hlen).
  rewrite Hdec.
  assert (Hcv : dval (ip ++ fp) = c).
  { rewrite Hipfp; apply digits_n_val.
    split; [lia|]. apply (Z.lt_le_trans _ (10 * W)); [lia|].
    unfold W. rewrite <- (Z.pow_1_r 10) at 1. rewrite <- Z.pow_add_r by lia.
    apply Z.pow_le_mono_r; lia. }
  assert (Hd : Forall digit (ip ++ fp)) by (rewrite Hipfp; apply digits_n_digit).
  assert (Hlen' : Z.of_nat (length fp) = Z.of_nat n) by (rewrite Hlen; reflexivity).
  destruct (float_repr_unit ip fp Hd) as (d0 & ds & Hrep & Hd0 & Hds & Hne & Heq);
    [rewrite Hcv, Hlen'; fold W; lia|rewrite Hcv, Hlen'; fold W; lia|].
  rewrite Hrep.
  unfold parse_score64, parse_number64.
  replace (d0 :: "."%char :: ds) with ([d0] ++ "."%char :: ds ++ [])
    by (rewrite app_nil_r; reflexivity).
  rewrite search_dec by (auto; try discriminate; exact I).
  unfold py_float64; rewrite py_float_dec by (auto; discriminate).
  simpl option_map; cbv beta iota.
  rewrite Hcv, Hlen' in Heq; fold W in Heq.
  assert (Hds0 : (0 < 10 ^ Z.of_nat (length ds))%Z) by apply pow10_pos.
  rewrite (round64_eq (dval (d0 :: ds)) (10 ^ Z.of_nat (length ds)) c W) by
    (auto; simpl app; lia).
  exists (round64 c W); split; [|exact Hok].
  f_equal. apply (clamp64_unit _ m e); [lia|exact Hv|exact Hok].
Qed.

(** C6 (as amended): for [_parse_score], whose bounds are [[1, 10]],
    parsing [str] of the result again gives an equal number.  Floats are
    binary64: [float] rounds the literal to the nearest double and [str]
    prints the shortest digits that read back as the same double. *)
Theorem parse_score_reparse_str :
  forall s, exists x y, parse_score64 s = Some x /\
    parse_score64 (py_str64 x) = Some y /\ py_eqb64 y x = true.
Proof.
  intros s.
  unfold parse_score64 at 1, parse_number64 at 1.
  destruct (search_number s) as [tok|] eqn:Hs.
  - destruct (search_number_token _ _ Hs) as (d1 & d2 & Hne & Hd1 & Hd2 & Hf).
    unfold py_float64 at 1; rewrite Hf; cbn [option_map num_parts].
    remember (round64 (dval (d1 ++ d2)) (10 ^ Z.of_nat (length d2))) as f eqn:Hfd.
    exists (py_min64 (PInt64 10) (py_max64 (PInt64 1) (PFlt f))).
    unfold py_max64, py_min64.
    destruct (py_lt64 (PInt64 1) (PFlt f)) eqn:H1.
    + destruct (py_lt64 (PFlt f) (PInt64 10)) eqn:H2.
      * destruct f as [m e|]; [|discriminate H2].
        unfold py_lt64 in H1, H2; cbn [ratio64] in H1, H2.
        pose proof (f64_ratio_den m e) as Hv.
        destruct (f64_ratio m e) as [u v] eqn:Huv; simpl in Hv.
        apply Z.ltb_lt in H1, H2.
        pose proof (dval_bound _ (proj2 (Forall_app _ _ _) (conj Hd1 Hd2))) as HA.
        destruct (Z.eq_dec (dval (d1 ++ d2)) 0) as [HA0|HA0].
        { rewrite HA0 in Hfd. unfold round64 in Hfd; simpl in Hfd.
          injection Hfd as -> ->. simpl in Huv. injection Huv as <- <-. lia. }
        assert (Hshape := round64_shape (dval (d1 ++ d2)) _ m e ltac:(lia) (pow10_pos _) (eq_sym Hfd)).
        destruct (unit_float_shape m e u v Hshape Huv ltac:(lia))
          as (Hm & He & -> & ->).
        destruct (repr64_unit m e Hm He ltac:(lia)) as (y & Hy & Hyeq).
        exists (PFlt y). cbn [py_str64]. split; [reflexivity|]. split; [exact Hy|exact Hyeq].
      * exists (PInt64 10). split; [reflexivity|]. split; reflexivity.
    + exists (PInt64 1). split; [reflexivity|]. split; reflexivity.
  - exists (py_min64 (PInt64 10) five64), five64. split; [reflexivity|]. split; vm_compute; reflexivity.
Qed.

(** C6 counterexample: [_parse_rating], whose lower bound is [0], keeps
    the double nearest [0.00001]; [str] prints it [1e-05], which parses as
    [1.0]. *)
Lemma parse_rating_reparse_counterexample :
  ~ (forall s, exists x y, parse_rating64 s = Some x /\
       parse_rating64 (py_str64 x) = Some y /\ py_eqb64 y x = true).
Proof.
  intros H; destruct (H (lit "0.00001")) as (x & y & Hx & Hy & He).
  vm_compute in Hx; injection Hx as <-.
  vm_compute in Hy; injection Hy as <-.
  vm_compute in He; discriminate.
Qed.

(* ------------------------------------------------------------------ *)
(** ** Splitting, dictionaries and the orchestrator *)

Lemma split_on_cons (sep : ascii) (r : text) :
  exists q qs, split_on sep r = q :: qs.
Proof.
  induction r as [|c r (q & qs & IH)]; simpl; [eauto|].
  destruct (Ascii.eqb c sep); [eauto|]. rewrite IH; eauto.
Qed.

Lemma split_on_prefix (sep : ascii) (p r : text) :
  ~ In sep p ->
  split_on sep (p ++ r) =
  (p ++ hd [] (split_on sep r)) :: tl (split_on sep r).
Proof.
  intros Hp; induction p as [|c p IH]; simpl.
  - destruct (split_on_cons sep r) as (q & qs & ->); reflexivity.
  - destruct (Ascii.eqb_spec c sep) as [->|Hc]; [exfalso; apply Hp; now left|].
    rewrite IH by (intros H; apply Hp; now right). reflexivity.
Qed.

(** [sep.join(ps).split(sep) == ps] when no piece holds [sep]. *)
Lemma split_on_join (sep : ascii) (ps : list text) :
  ps <> [] -> Forall (fun p => ~ In sep p) ps -> split_on sep (join sep ps) = ps.
Proof.
  intros Hne Hps; revert Hne; induction Hps as [|p ps Hp Hps IH]; intros Hne;
    [now destruct Hne|].
  destruct ps as [|q ps].
  - simpl join. rewrite <- (app_nil_r p) at 1. rewrite split_on_prefix by exact Hp.
    simpl. rewrite app_nil_r; reflexivity.
  - change (join sep (p :: q :: ps)) with (p ++ sep :: join sep (q :: ps)).
    rewrite split_on_prefix by exact Hp.
    assert (Hs : forall r, split_on sep (sep :: r) = [] :: split_on sep r)
      by (intros r; simpl; rewrite Ascii.eqb_refl; reflexivity).
    rewrite Hs; cbn [hd tl]. rewrite app_nil_r, IH by discriminate.
    reflexivity.
Qed.

Lemma keys_dict_set (k : text) (v : pyval) (d : dict) :
  map fst (dict_set k v d) = add_key (map fst d) k.
Proof.
  induction d as [|[k' v'] d IH]; simpl; [reflexivity|].
  unfold add_key; simpl.
  destruct (text_eqb k k') eqn:E; simpl.
  - apply text_eqb_eq in E; subst; reflexivity.
  - rewrite IH; unfold add_key; destruct (existsb (text_eqb k) (map fst d)); reflexivity.
Qed.

Lemma bind_some {A B} (m : M A) (f : A -> M B) (tr tr' : list call) (b : B) :
  bind m f tr = (tr', Some b) ->
  exists a tr1, m tr = (tr1, Some a) /\ f a tr1 = (tr', Some b).
Proof.
  unfold bind; destruct (m tr) as [tr1 [a|]]; intros H; [eauto|discriminate].
Qed.

Lemma parse_score_some (s : text) : exists x, parse_score s = Some x.
Proof. destruct (parse_number_range 1 10 s) as (x & Hx & _); [lia|lia|eauto]. Qed.

Section Loop.
Variable o : resume_oracle.
Variable resume_text : text.

(** When the call for one unit always raises, the loop raises, and it
    issues nothing but unit evaluations. *)
Lemma analyze_sections_unit_failure (s : text) (secs : list text) :
  In s secs -> (forall tr, o_evaluate o tr s resume_text = None) ->
  forall acc tr,
    snd (analyze_sections o resume_text secs acc tr) = None /\
    (forall c, In c (fst (analyze_sections o resume_text secs acc tr)) ->
       In c tr \/ exists s', c = CallEvaluate s' resume_text).
Proof.
  intros Hin Hfail; induction secs as [|a secs IH]; [destruct Hin|].
  intros acc tr; simpl analyze_sections; unfold bind, issue, lift.
  destruct (o_evaluate o tr a resume_text) as [[an sc]|] eqn:E.
  - destruct Hin as [->|Hin]; [rewrite Hfail in E; discriminate|].
    cbn [fst snd]. destruct (parse_score sc) as [x|].
    + destruct (IH Hin (dict_set a (VDict [(lit "analysis", VStr an);
                                            (lit "score", VNum x)]) acc)
                   (tr ++ [CallEvaluate a resume_text]))
        as [H1 H2].
      split; [exact H1|]. intros c Hc. destruct (H2 c Hc) as [Hc'|Hc']; auto.
      apply in_app_or in Hc' as [Hc'|[<-|[]]]; eauto.
    + split; [reflexivity|]. intros c Hc; simpl in Hc.
      apply in_app_or in Hc as [Hc|[<-|[]]]; eauto.
  - split; [reflexivity|]. intros c Hc; simpl in Hc.
    apply in_app_or in Hc as [Hc|[<-|[]]]; eauto.
Qed.

(** When every unit call answers, the loop returns a dict whose keys are
    the section names in first-seen order. *)
Lemma analyze_sections_keys (secs : list text) :
  (forall tr s, o_evaluate o tr s resume_text <> None) ->
  forall acc tr, exists tr' d,
    analyze_sections o resume_text secs acc tr = (tr', Some d) /\
    map fst d = fold_left add_key secs (map fst acc).
Proof.
  intros Hok; induction secs as [|a secs IH]; intros acc tr; simpl.
  - exists tr, acc; split; reflexivity.
  - unfold bind, issue, lift.
    destruct (o_evaluate o tr a resume_text) as [[an sc]|] eqn:E;
      [|exfalso; exact (Hok tr a E)].
    cbn [fst snd]. destruct (parse_score_some sc) as [x ->].
    destruct (IH (dict_set a (VDict [(lit "analysis", VStr an); (lit "score", VNum x)]) acc)
                 (tr ++ [CallEvaluate a resume_text])) as (tr' & d & H1 & H2).
    exists tr', d; split; [exact H1|]. rewrite H2, keys_dict_set. reflexivity.
Qed.

End Loop.

Lemma catch_snd {A} (m : M A) (dflt : A) (tr : list call) :
  snd (catch m dflt tr) = Some (match snd (m tr) with Some a => a | None => dflt end).
Proof. unfold catch; destruct (m tr) as [tr' [a|]]; reflexivity. Qed.

Lemma section_list_of_join (ps : list text) :
  ps <> [] -> Forall (fun p => ~ In ","%char p) ps ->
  section_list_of (join "," ps) = map strip (filter (fun p => truthy (strip p)) ps).
Proof. intros Hne Hps; unfold section_list_of; rewrite split_on_join; auto. Qed.

Lemma to_lower_upper (c : ascii) : to_lower (to_upper c) = to_lower c.
Proof. destruct c as [[] [] [] [] [] [] [] []]; reflexivity. Qed.

Lemma lower_upper (t : text) : lower (map to_upper t) = lower t.
Proof.
  unfold lower; rewrite map_map; apply map_ext; exact to_lower_upper.
Qed.

(** The end-to-end scenario of the spec: four sections, each scored 8. *)
Example forward_end_to_end :
  snd (forward (mock_oracle (lit "SUMMARY, EXPERIENCE, EDUCATION, SKILLS"))
               (lit "resume") []) =
  Some [(lit "sections", VList [lit "SUMMARY"; lit "EXPERIENCE"; lit "EDUCATION"; lit "SKILLS"]);
        (lit "section_analyses", VDict
           (map (fun n => (n, VDict [(lit "analysis", VStr (lit "Clear and relevant."));
                                     (lit "score", VNum (PFloat (lit "8") []))]))
                [lit "SUMMARY"; lit "EXPERIENCE"; lit "EDUCATION"; lit "SKILLS"]));
        (lit "overall_summary", VStr (lit "Solid resume."));
        (lit "strengths", VList [lit "- Leadership"; lit "- Cloud skills"]);
        (lit "weaknesses", VList [lit "- Few metrics"]);
        (lit "recommendations", VList [lit "- Quantify results"; lit "- Shorten summary"])].
Proof. vm_compute. reflexivity. Qed.

(** C9: [ResumeAnalyzer.forward] and [AdvancedMovieReviewer.forward] never
    raise, and return either the dict with all of their result keys, in
    order, or the empty dict. *)
Theorem forward_all_or_nothing :
  (forall o t tr, exists d, snd (forward o t tr) = Some d /\
     (map fst d = resume_keys \/ d = [])) /\
  (forall mo review tr, exists d, snd (movie_forward mo review tr) = Some d /\
     (map fst d = movie_keys \/ d = [])).
Proof.
  split.
  - intros o t tr; unfold forward; rewrite catch_snd.
    match goal with |- context [snd (?m tr)] => destruct (m tr) as [tr' [d|]] eqn:E end;
      simpl snd; eexists; (split; [reflexivity|]); [left|right; reflexivity].
    apply bind_some in E as (sections & tr1 & _ & E).
    apply bind_some in E as (sa & tr2 & _ & E).
    apply bind_some in E as (overall & tr3 & _ & E).
    destruct overall as [[[su st] we] re]; unfold ret in E; inversion E; reflexivity.
  - intros mo review tr; unfold movie_forward; rewrite catch_snd.
    match goal with |- context [snd (?m tr)] => destruct (m tr) as [tr' [d|]] eqn:E end;
      simpl snd; eexists; (split; [reflexivity|]); [left|right; reflexivity].
    apply bind_some in E as (analysis & tr1 & _ & E).
    apply bind_some in E as (genres & tr2 & _ & E).
    apply bind_some in E as (comparisons & tr3 & _ & E).
    destruct analysis as [[[[[[a1 a2] a3] a4] a5] a6] a7].
    destruct comparisons as [c1 c2]. cbv beta iota in E.
    apply bind_some in E as (rating & tr4 & _ & E).
    unfold ret in E; inversion E; reflexivity.
Qed.

(** C8: when the Stage 1 reply holds no usable name, the unit list is
    empty, no unit evaluation is issued, the holistic call is still issued,
    and when it answers the result is the full dict with empty [sections]
    and [section_analyses]. *)
Theorem forward_no_units :
  forall o t reply,
    o_sections o [] t = Some reply -> section_list_of reply = [] ->
    fst (forward o t []) = [CallSections t; CallAssess t] /\
    (forall su st we re, o_assess o [CallSections t] t = Some (su, st, we, re) ->
       snd (forward o t []) =
       Some [(lit "sections", VList []); (lit "section_analyses", VDict []);
             (lit "overall_summary", VStr su);
             (lit "strengths", VList (format_list_resume st));
             (lit "weaknesses", VList (format_list_resume we));
             (lit "recommendations", VList (format_list_resume re))]).
Proof.
  intros o t reply Hs Hl.
  unfold forward, catch, bind, issue; cbn [app]. rewrite Hs. cbv beta iota.
  rewrite Hl. cbn [analyze_sections ret]. cbv beta iota. cbn [app].
  split.
  - destruct (o_assess o [CallSections t] t) as [[[[su st] we] re]|]; reflexivity.
  - intros su st we re Ha. rewrite Ha. reflexivity.
Qed.

Lemma forward_no_units_witness :
  fst (forward (mock_oracle (lit " , ,  ")) (lit "resume") []) =
    [CallSections (lit "resume"); CallAssess (lit "resume")] /\
  snd (forward (mock_oracle (lit " , ,  ")) (lit "resume") []) =
    Some [(lit "sections", VList []); (lit "section_analyses", VDict []);
          (lit "overall_summary", VStr (lit "Solid resume."));
          (lit "strengths", VList (format_list_resume (lit "Leadership; Cloud skills")));
          (lit "weaknesses", VList (format_list_resume (lit "Few metrics")));
          (lit "recommendations",
             VList (format_list_resume (lit "Quantify results; Shorten summary")))].
Proof.
  destruct (forward_no_units (mock_oracle (lit " , ,  ")) (lit "resume") (lit " , ,  ")
              eq_refl ltac:(vm_compute; reflexivity)) as [H1 H2].
  split; [exact H1|]. apply H2. reflexivity.
Defined.

Section UnitFailure.
Variable o : resume_oracle.
Variable t : text.

(** The unit calls of [pre] answer and the next one raises: the loop stops
    right after that call and raises. *)
Lemma analyze_sections_fail (pre : list text) (s : text) (post : list text) :
  forall acc tr,
    units_answer o t tr pre ->
    o_evaluate o (tr ++ map (fun u => CallEvaluate u t) pre) s t = None ->
    analyze_sections o t (pre ++ s :: post) acc tr =
      (tr ++ map (fun u => CallEvaluate u t) pre ++ [CallEvaluate s t], None).
Proof.
  induction pre as [|a pre IH]; intros acc tr Hok Hfail.
  - simpl in *. rewrite app_nil_r in Hfail.
    unfold bind, issue; rewrite Hfail. reflexivity.
  - destruct Hok as [Ha Hok].
    cbn [app analyze_sections]. unfold bind at 1, issue at 1.
    destruct (o_evaluate o tr a t) as [[an sc]|] eqn:E; [|congruence].
    unfold bind, lift; cbn [snd].
    destruct (parse_score_some sc) as [x ->].
    rewrite IH; [| exact Hok |].
    + cbn [map]. rewrite <- app_assoc. reflexivity.
    + rewrite <- app_assoc. exact Hfail.
Qed.

(** Every unit call of [secs] answers: the loop issues them all, in order,
    and returns. *)
Lemma analyze_sections_answer (secs : list text) :
  forall acc tr, units_answer o t tr secs ->
  exists d, analyze_sections o t secs acc tr =
            (tr ++ map (fun u => CallEvaluate u t) secs, Some d).
Proof.
  induction secs as [|a secs IH]; intros acc tr Hok.
  - exists acc; simpl; rewrite app_nil_r; reflexivity.
  - destruct Hok as [Ha Hok].
    simpl; unfold bind, issue, lift.
    destruct (o_evaluate o tr a t) as [[an sc]|] eqn:E; [|congruence].
    cbn [fst snd]. destruct (parse_score_some sc) as [x ->].
    destruct (IH (dict_set a (VDict [(lit "analysis", VStr an); (lit "score", VNum x)]) acc)
                 (tr ++ [CallEvaluate a t]) Hok) as [d Hd].
    exists d; rewrite <- app_assoc in Hd; exact Hd.
Qed.

End UnitFailure.

(** C1 (as amended): the whole body of [forward] sits in one [try].  If
    the Stage 1 call raises, or the unit call for [s] raises after the
    units before it answered, or the holistic call raises after every unit
    answered, [forward] returns the empty dict, dropping what the other
    stages produced; the trace shows the exact calls issued, so after a
    raising unit call no further unit call and no holistic call is made. *)
Theorem forward_failure_discards_all :
  forall o t tr,
    (o_sections o tr t = None ->
       forward o t tr = (tr ++ [CallSections t], Some [])) /\
    (forall reply pre s post,
       o_sections o tr t = Some reply ->
       section_list_of reply = pre ++ s :: post ->
       units_answer o t (tr ++ [CallSections t]) pre ->
       o_evaluate o ((tr ++ [CallSections t]) ++ map (fun u => CallEvaluate u t) pre) s t = None ->
       forward o t tr =
         ((tr ++ [CallSections t]) ++ map (fun u => CallEvaluate u t) pre ++ [CallEvaluate s t],
          Some [])) /\
    (forall reply,
       o_sections o tr t = Some reply ->
       units_answer o t (tr ++ [CallSections t]) (section_list_of reply) ->
       o_assess o ((tr ++ [CallSections t]) ++
                   map (fun u => CallEvaluate u t) (section_list_of reply)) t = None ->
       forward o t tr =
         (((tr ++ [CallSections t]) ++ map (fun u => CallEvaluate u t) (section_list_of reply))
            ++ [CallAssess t], Some [])).
Proof.
  intros o t tr; split; [|split].
  - intros Hs; unfold forward, catch, bind, issue. rewrite Hs. reflexivity.
  - intros reply pre s post Hs Hl Hok Hfail.
    unfold forward, catch, bind at 1, issue at 1. rewrite Hs. cbv beta iota.
    rewrite Hl.
    unfold bind at 1. rewrite (analyze_sections_fail o t pre s post [] _ Hok Hfail).
    reflexivity.
  - intros reply Hs Hok Hfail.
    unfold forward, catch, bind at 1, issue at 1. rewrite Hs. cbv beta iota.
    destruct (analyze_sections_answer o t (section_list_of reply) [] _ Hok) as [d Hd].
    unfold bind at 1. rewrite Hd.
    unfold bind, issue. rewrite Hfail. reflexivity.
Qed.

Lemma forward_failure_discards_all_witness :
  forward (failing_unit_oracle (lit "Skills, Experience, Education") (lit "Experience"))
          (lit "resume") [] =
  (([] ++ [CallSections (lit "resume")]) ++
     map (fun u => CallEvaluate u (lit "resume")) [lit "Skills"] ++
     [CallEvaluate (lit "Experience") (lit "resume")], Some []).
Proof.
  apply (proj1 (proj2 (forward_failure_discards_all
           (failing_unit_oracle (lit "Skills, Experience, Education") (lit "Experience"))
           (lit "resume") []))
         (lit "Skills, Experience, Education") [lit "Skills"] (lit "Experience")
         [lit "Education"]).
  - reflexivity.
  - vm_compute; reflexivity.
  - split; [discriminate|exact I].
  - reflexivity.
Defined.

(** C1 counterexample: the unit [Experience] fails; [Skills] was evaluated
    and [Education] and the holistic stage would answer, yet [forward]
    returns the empty dict, and neither [Education] nor the holistic stage
    is ever called. *)
Lemma forward_unit_failure_counterexample :
  forward (failing_unit_oracle (lit "Skills, Experience, Education") (lit "Experience"))
          (lit "resume") [] =
  ([CallSections (lit "resume"); CallEvaluate (lit "Skills") (lit "resume");
    CallEvaluate (lit "Experience") (lit "resume")], Some []).
Proof. vm_compute; reflexivity. Qed.

(** C2 (as amended): [sections] keeps every non-empty trimmed name of the
    Stage 1 reply in order, duplicates included; [section_analyses] holds
    one key per distinct name, in first-seen order. *)
Theorem forward_sections_duplicates :
  forall o t ps,
    ps <> [] -> Forall (fun p => ~ In ","%char p) ps ->
    o_sections o [] t = Some (join "," ps) ->
    (forall tr s, o_evaluate o tr s t <> None) ->
    (forall tr, o_assess o tr t <> None) ->
    let names := map strip (filter (fun p => truthy (strip p)) ps) in
    exists d sa, snd (forward o t []) = Some d /\
      dict_get (lit "sections") d = Some (VList names) /\
      dict_get (lit "section_analyses") d = Some (VDict sa) /\
      map fst sa = uniq_first names.
Proof.
  intros o t ps Hne Hps Hs Hok Hass names.
  destruct (analyze_sections_keys o t (section_list_of (join "," ps)) Hok [] [CallSections t])
    as (tr' & sa & Ea & K).
  unfold forward, catch, bind, issue; cbn [app]. rewrite Hs. cbv beta iota.
  rewrite Ea.
  destruct (o_assess o tr' t) as [[[[su st] we] re]|] eqn:E;
    [|exfalso; exact (Hass tr' E)].
  eexists _, sa. split; [reflexivity|].
  rewrite section_list_of_join in * by assumption.
  split; [reflexivity|]. split; [reflexivity|]. exact K.
Qed.

Lemma forward_sections_duplicates_witness :
  exists d sa,
    snd (forward (mock_oracle (lit "Skills, Skills, Experience")) (lit "resume") []) = Some d /\
    dict_get (lit "sections") d = Some (VList [lit "Skills"; lit "Skills"; lit "Experience"]) /\
    dict_get (lit "section_analyses") d = Some (VDict sa) /\
    map fst sa = [lit "Skills"; lit "Experience"].
Proof.
  apply (forward_sections_duplicates (mock_oracle (lit "Skills, Skills, Experience"))
           (lit "resume") [lit "Skills"; lit " Skills"; lit " Experience"]).
  - discriminate.
  - repeat constructor; simpl; intuition discriminate.
  - reflexivity.
  - intros tr s; discriminate.
  - intros tr; discriminate.
Defined.

(** C2 counterexample: for the reply [Skills, Skills, Experience] the
    [sections] entry lists [Skills] twice. *)
Lemma forward_sections_counterexample :
  exists d, snd (forward (mock_oracle (lit "Skills, Skills, Experience")) (lit "resume") []) = Some d /\
    dict_get (lit "sections") d = Some (VList [lit "Skills"; lit "Skills"; lit "Experience"]) /\
    dict_get (lit "sections") d <> Some (VList [lit "Skills"; lit "Experience"]).
Proof.
  eexists; split; [vm_compute; reflexivity|]. split; [vm_compute; reflexivity|].
  vm_compute; discriminate.
Qed.

(** C7: when the resume has fewer than 50 words, the button handler of
    [main] warns and issues no oracle call. *)
Theorem short_resume_no_oracle_call :
  forall o t tr, length (split_ws t) < 50 -> on_analyze o t tr = (tr, Some Warned).
Proof.
  intros o t tr H; unfold on_analyze; apply Nat.ltb_lt in H; rewrite H; reflexivity.
Qed.

Lemma short_resume_no_oracle_call_witness :
  on_analyze (mock_oracle (lit "Skills")) (lit "John Doe, developer with 5 years") [] =
  ([], Some Warned).
Proof.
  apply short_resume_no_oracle_call. apply Nat.ltb_lt; reflexivity.
Defined.

(** C4 (as amended): [_format_list] splits on the delimiter, trims each
    piece, drops the empty ones, keeps order and duplicates, and prefixes
    every kept piece with ["- "]; on ["a; b ;;c"] it returns
    [["- a","- b","- c"]], and on the empty string [[]]. *)
Theorem format_list_split_trim_drop :
  format_list_resume (lit "a; b ;;c") = [lit "- a"; lit "- b"; lit "- c"] /\
  format_list_resume [] = [] /\
  (forall ps, ps <> [] -> Forall (fun p => ~ In ";"%char p) ps ->
     format_list_resume (join ";" ps) =
     map (fun p => lit "- " ++ strip p) (filter (fun p => truthy (strip p)) ps)) /\
  (forall ps, ps <> [] -> Forall (fun p => ~ In ","%char p) ps ->
     format_list_movie (join "," ps) =
     map (fun p => lit "- " ++ strip p) (filter (fun p => truthy (strip p)) ps)).
Proof.
  split; [reflexivity|]. split; [reflexivity|].
  split; intros ps Hne Hps.
  - unfold format_list_resume; rewrite split_on_join; auto.
  - unfold format_list_movie; rewrite split_on_join; auto.
Qed.

Lemma format_list_split_trim_drop_witness :
  format_list_resume (lit "x; x ;") = [lit "- x"; lit "- x"].
Proof.
  apply (proj1 (proj2 (proj2 format_list_split_trim_drop))
           [lit "x"; lit " x "; []]).
  - discriminate.
  - repeat constructor; simpl; intuition discriminate.
Defined.

(** C4 counterexample: on ["a; b ;;c"] the result is not [["a","b","c"]]. *)
Lemma format_list_counterexample :
  format_list_resume (lit "a; b ;;c") <> [lit "a"; lit "b"; lit "c"].
Proof. vm_compute; discriminate. Qed.

(** C5: [_rate_quality] is the first-match lookup in the ordered bands
    Excellent, Good, Average, Poor on the lowered text, with Average as the
    default; upper-casing the input does not change the result; and the
    mixed text of the spec gets the Excellent band. *)
Theorem rate_quality_first_band :
  (forall t, rate_quality t = map_quality_to_stars t) /\
  (forall t, rate_quality (map to_upper t) = rate_quality t) /\
  rate_quality (lit "This was an excellent and good performance") = star5.
Proof.
  split; [|split; [|reflexivity]].
  - intros t; reflexivity.
  - intros t; unfold rate_quality; rewrite lower_upper; reflexivity.
Qed.

(** C10: [_rate_quality] returns one of four distinct star strings, and a
    text with none of the keywords gets the same string as ["average"]. *)
Theorem rate_quality_four_bands_default_average :
  NoDup [star5; star4; star3; star2] /\
  (forall t, In (rate_quality t) [star5; star4; star3; star2]) /\
  (forall t,
     forallb (fun kw => negb (contains kw (lower t)))
       [lit "excellent"; lit "good"; lit "average"; lit "poor"] = true ->
     rate_quality t = rate_quality (lit "average")).
Proof.
  split; [|split].
  - repeat constructor; simpl; intuition discriminate.
  - intros t; unfold rate_quality.
    destruct (contains (lit "excellent") (lower t)); [simpl; tauto|].
    destruct (contains (lit "good") (lower t)); [simpl; tauto|].
    destruct (contains (lit "average") (lower t)); [simpl; tauto|].
    destruct (contains (lit "poor") (lower t)); simpl; tauto.
  - intros t H; unfold rate_quality at 1; unfold forallb in H.
    destruct (contains (lit "excellent") (lower t)); [discriminate|].
    destruct (contains (lit "good") (lower t)); [discriminate|].
    destruct (contains (lit "average") (lower t)); [discriminate|].
    destruct (contains (lit "poor") (lower t)); [discriminate|].
    reflexivity.
Qed.

Lemma rate_quality_four_bands_default_average_witness :
  rate_quality (lit "Forgettable") = rate_quality (lit "average").
Proof.
  exact (proj2 (proj2 rate_quality_four_bands_default_average)
           (lit "Forgettable") ltac:(vm_compute; reflexivity)).
Defined.

(* ================================================================== *)
(** * Further properties of the code *)

(** ** [str.split], [str.strip] and [str.title] *)

Lemma split_on_nonempty (sep : ascii) (s : text) : split_on sep s <> [].
Proof.
  destruct s as [|c r]; simpl; [discriminate|].
  destruct (Ascii.eqb c sep); [discriminate|].
  destruct (split_on sep r); discriminate.
Qed.

(** [(a + sep + b).split(sep) == a.split(sep) + b.split(sep)] *)
Lemma split_on_app (sep : ascii) (a b : text) :
  split_on sep (a ++ sep :: b) = split_on sep a ++ split_on sep b.
Proof.
  induction a as [|c a IH]; simpl.
  - rewrite Ascii.eqb_refl. reflexivity.
  - rewrite IH. destruct (Ascii.eqb c sep); [reflexivity|].
    destruct (split_on sep a) as [|q qs] eqn:E;
      [exfalso; exact (split_on_nonempty sep a E)|].
    reflexivity.
Qed.

Lemma split_on_no_sep (sep : ascii) (s p : text) :
  In p (split_on sep s) -> ~ In sep p.
Proof.
  revert p; induction s as [|c r IH]; simpl; intros p Hp.
  - destruct Hp as [<-|[]]; simpl; tauto.
  - destruct (Ascii.eqb c sep) eqn:E.
    + destruct Hp as [<-|Hp]; [simpl; tauto|]. exact (IH p Hp).
    + destruct (split_on sep r) as [|q qs] eqn:Es;
        [exfalso; exact (split_on_nonempty sep r Es)|].
      destruct Hp as [<-|Hp].
      * simpl; intros [Hc|Hq].
        -- subst; rewrite Ascii.eqb_refl in E; discriminate.
        -- exact (IH q (or_introl eq_refl) Hq).
      * exact (IH p (or_intror Hp)).
Qed.

(** The first character of a string is not whitespace. *)
Definition no_lead (s : text) : Prop :=
  match s with c :: _ => is_space c = false | [] => True end.

Lemma lstrip_no_lead (s : text) : no_lead (lstrip s).
Proof.
  induction s as [|c r IH]; simpl; [exact I|].
  destruct (is_space c) eqn:E; [exact IH|exact E].
Qed.

Lemma lstrip_id (s : text) : no_lead s -> lstrip s = s.
Proof. destruct s as [|c r]; simpl; [reflexivity|]. intros H; rewrite H; reflexivity. Qed.

Lemma lstrip_suffix (s : text) : exists p, s = p ++ lstrip s.
Proof.
  induction s as [|c r [p IH]]; simpl; [exists []; reflexivity|].
  destruct (is_space c); [exists (c :: p); simpl; congruence|exists []; reflexivity].
Qed.

Lemma lstrip_in (s : text) (c : ascii) : In c (lstrip s) -> In c s.
Proof.
  destruct (lstrip_suffix s) as [p Hp]. intros H; rewrite Hp; apply in_or_app; auto.
Qed.

Lemma strip_in (s : text) (c : ascii) : In c (strip s) -> In c s.
Proof.
  unfold strip, rstrip; intros H.
  apply lstrip_in. apply in_rev. apply lstrip_in. apply in_rev. exact H.
Qed.

Lemma strip_no_lead (s : text) : no_lead (strip s) /\ no_lead (rev (strip s)).
Proof.
  unfold strip, rstrip. rewrite rev_involutive. split; [|apply lstrip_no_lead].
  set (u := lstrip s).
  destruct (lstrip_suffix (rev u)) as [p Hp].
  set (w := lstrip (rev u)) in *.
  assert (Hu : u = rev w ++ rev p) by (rewrite <- rev_app_distr, <- Hp, rev_involutive; reflexivity).
  pose proof (lstrip_no_lead s) as Hs; fold u in Hs.
  destruct (rev w) as [|c r] eqn:E; [exact I|].
  rewrite Hu in Hs. exact Hs.
Qed.

Lemma strip_id (s : text) : no_lead s -> no_lead (rev s) -> strip s = s.
Proof.
  intros H1 H2; unfold strip, rstrip. rewrite (lstrip_id s H1), (lstrip_id _ H2).
  apply rev_involutive.
Qed.

Lemma strip_idem (s : text) : strip (strip s) = strip s.
Proof. destruct (strip_no_lead s); apply strip_id; assumption. Qed.

Lemma no_lead_spaces (s t : text) :
  map is_space s = map is_space t -> no_lead s -> no_lead t.
Proof.
  destruct s as [|c s], t as [|d t]; simpl; try discriminate; [tauto|].
  intros H; injection H as H _. congruence.
Qed.

Lemma is_space_case (b : bool) (c : ascii) :
  is_space (if b then to_lower c else to_upper c) = is_space c.
Proof. destruct b; destruct c as [[] [] [] [] [] [] [] []]; reflexivity. Qed.

Lemma cased_case (b : bool) (c : ascii) :
  is_upper (if b then to_lower c else to_upper c) ||
  is_lower (if b then to_lower c else to_upper c) = is_upper c || is_lower c.
Proof. destruct b; destruct c as [[] [] [] [] [] [] [] []]; reflexivity. Qed.

Lemma case_idem (b : bool) (c : ascii) :
  (if b then to_lower (to_lower c) else to_upper (to_upper c)) =
  (if b then to_lower c else to_upper c).
Proof. destruct b; destruct c as [[] [] [] [] [] [] [] []]; reflexivity. Qed.

Lemma case_comma (b : bool) (c : ascii) :
  Ascii.eqb (if b then to_lower c else to_upper c) ","%char = Ascii.eqb c ","%char.
Proof. destruct b; destruct c as [[] [] [] [] [] [] [] []]; reflexivity. Qed.

Lemma title_aux_idem (b : bool) (s : text) :
  title_aux b (title_aux b s) = title_aux b s.
Proof.
  revert b; induction s as [|c r IH]; intros b; simpl; [reflexivity|].
  rewrite cased_case, IH.
  destruct b; simpl; rewrite ?(case_idem true c), ?(case_idem false c); reflexivity.
Qed.

Lemma title_aux_spaces (b : bool) (s : text) :
  map is_space (title_aux b s) = map is_space s.
Proof.
  revert b; induction s as [|c r IH]; intros b; simpl; [reflexivity|].
  rewrite IH. f_equal. destruct b; apply (is_space_case true) || apply (is_space_case false).
Qed.

Lemma title_aux_length (b : bool) (s : text) : length (title_aux b s) = length s.
Proof. revert b; induction s; intros b; simpl; [reflexivity|]; rewrite IHs; reflexivity. Qed.

Lemma title_aux_comma (b : bool) (s : text) :
  ~ In ","%char s -> ~ In ","%char (title_aux b s).
Proof.
  revert b; induction s as [|c r IH]; intros b Hs; simpl; [tauto|].
  intros [Hc|Hin].
  - apply Hs; left.
    assert (E : Ascii.eqb (if b then to_lower c else to_upper c) ","%char = true)
      by (rewrite Hc; apply Ascii.eqb_refl).
    destruct b; [rewrite (case_comma true) in E|rewrite (case_comma false) in E];
      apply Ascii.eqb_eq; exact E.
  - exact (IH _ (fun H => Hs (or_intror H)) Hin).
Qed.

(** A stripped string stays stripped under [str.title]. *)
Lemma strip_title (s : text) : strip s = s -> strip (title s) = title s.
Proof.
  intros H. destruct (strip_no_lead s) as [H1 H2]; rewrite H in H1, H2.
  pose proof (title_aux_spaces false s) as Hm.
  apply strip_id.
  - exact (no_lead_spaces s _ (eq_sym Hm) H1).
  - apply (no_lead_spaces (rev s)); [|exact H2].
    rewrite !map_rev. unfold title. rewrite Hm. reflexivity.
Qed.

Lemma truthy_nonempty (s : text) : truthy s = true <-> s <> [].
Proof. destruct s; simpl; split; congruence. Qed.

Lemma map_filter_id (f : text -> text) (pred : text -> bool) (l : list text) :
  Forall (fun x => f x = x /\ pred x = true) l -> map f (filter pred l) = l.
Proof.
  induction 1 as [|x l [Hf Hp] _ IH]; simpl; [reflexivity|].
  rewrite Hp; simpl; rewrite Hf, IH; reflexivity.
Qed.

(** A kept piece of a split: its trimmed form is non-empty, already
    trimmed, and free of the separator. *)
Lemma kept_piece (sep : ascii) (s p : text) :
  In p (filter (fun q => truthy (strip q)) (split_on sep s)) ->
  strip p <> [] /\ strip (strip p) = strip p /\ ~ In sep (strip p).
Proof.
  intros H; apply filter_In in H as [Hin Ht].
  split; [apply truthy_nonempty; exact Ht|]. split; [apply strip_idem|].
  intros Hs; apply strip_in in Hs. exact (split_on_no_sep sep s p Hin Hs).
Qed.

(** Every item [_format_list] returns is ["- "] followed by a non-empty,
    already trimmed piece that holds no delimiter. *)
Theorem format_list_items :
  (forall s x, In x (format_list_resume s) ->
     exists p, x = lit "- " ++ p /\ p <> [] /\ strip p = p /\ ~ In ";"%char p) /\
  (forall s x, In x (format_list_movie s) ->
     exists p, x = lit "- " ++ p /\ p <> [] /\ strip p = p /\ ~ In ","%char p).
Proof.
  split; intros s x Hx; apply in_map_iff in Hx as (q & <- & Hq);
    exists (strip q); split; [reflexivity| |reflexivity|];
    exact (kept_piece _ s q Hq).
Qed.

(** The formatters and the Stage 1 parsing of [forward] work piece by
    piece: on [a + sep + b] they return their result on [a] followed by
    their result on [b]. *)
Theorem formatters_split_app (a b : text) :
  format_list_resume (a ++ ";"%char :: b) = format_list_resume a ++ format_list_resume b /\
  format_list_movie (a ++ ","%char :: b) = format_list_movie a ++ format_list_movie b /\
  format_genres (a ++ ","%char :: b) = format_genres a ++ format_genres b /\
  section_list_of (a ++ ","%char :: b) = section_list_of a ++ section_list_of b.
Proof.
  unfold format_list_resume, format_list_movie, format_genres, section_list_of.
  rewrite !split_on_app, !filter_app, !map_app. repeat split.
Qed.

(** Every unit name of Stage 1 is non-empty, trimmed and free of commas, so
    joining the names with [","] and parsing again gives the same list. *)
Theorem section_list_of_roundtrip (s : text) :
  Forall (fun n => n <> [] /\ strip n = n /\ ~ In ","%char n) (section_list_of s) /\
  section_list_of (join "," (section_list_of s)) = section_list_of s.
Proof.
  assert (HF : Forall (fun n => n <> [] /\ strip n = n /\ ~ In ","%char n) (section_list_of s)).
  { unfold section_list_of. apply Forall_forall; intros n Hn.
    apply in_map_iff in Hn as (q & <- & Hq). exact (kept_piece _ s q Hq). }
  split; [exact HF|].
  destruct (section_list_of s) as [|n ns] eqn:E; [reflexivity|].
  rewrite section_list_of_join.
  - apply map_filter_id. eapply Forall_impl; [|exact HF].
    intros n' (Hne & Hs & _); rewrite Hs; split; [reflexivity|apply truthy_nonempty; exact Hne].
  - discriminate.
  - eapply Forall_impl; [|exact HF]. intros n' (_ & _ & H); exact H.
Qed.

(** On ASCII text, every genre [_format_genres] returns is non-empty,
    trimmed, already in title case and free of commas; so formatting the
    genres joined with [","] again gives the same list.  (Beyond ASCII,
    [str.title] is not idempotent: it maps [U+01F0] to [J] followed by a
    combining caron, which a second [title] treats as a word break.) *)
Theorem format_genres_roundtrip (s : text) :
  ascii_text s = true ->
  Forall (fun g => g <> [] /\ strip g = g /\ title g = g /\ ~ In ","%char g)
    (format_genres s) /\
  format_genres (join "," (format_genres s)) = format_genres s.
Proof.
  intros _.
  assert (HF : Forall (fun g => g <> [] /\ strip g = g /\ title g = g /\ ~ In ","%char g)
                 (format_genres s)).
  { unfold format_genres. apply Forall_forall; intros g Hg.
    apply in_map_iff in Hg as (q & <- & Hq).
    destruct (kept_piece _ s q Hq) as (Hne & Hs & Hc).
    split; [|split; [|split]].
    - intros H0. apply Hne, length_zero_iff_nil.
      unfold title in H0; rewrite <- (title_aux_length false), H0; reflexivity.
    - apply strip_title; exact Hs.
    - apply title_aux_idem.
    - apply title_aux_comma; exact Hc. }
  split; [exact HF|].
  destruct (format_genres s) as [|g gs] eqn:E; [reflexivity|].
  unfold format_genres at 1. rewrite split_on_join.
  - apply map_filter_id. eapply Forall_impl; [|exact HF].
    intros g' (Hne & Hs & Ht & _); rewrite Hs, Ht.
    split; [reflexivity|apply truthy_nonempty; exact Hne].
  - discriminate.
  - eapply Forall_impl; [|exact HF]. intros g' (_ & _ & _ & H); exact H.
Qed.

Lemma format_genres_roundtrip_witness :
  ascii_text (lit " sci-fi, DRAMA ,, film noir") = true /\
  Forall (fun g => g <> [] /\ strip g = g /\ title g = g /\ ~ In ","%char g)
    (format_genres (lit " sci-fi, DRAMA ,, film noir")) /\
  format_genres (join "," (format_genres (lit " sci-fi, DRAMA ,, film noir"))) =
  format_genres (lit " sci-fi, DRAMA ,, film noir").
Proof.
  split; [reflexivity|].
  apply format_genres_roundtrip; reflexivity.
Defined.

(** ** The loop of [ResumeAnalyzer.forward] *)

Lemma dict_set_forall (P : pyval -> Prop) (k : text) (v : pyval) (d : dict) :
  Forall (fun kv => P (snd kv)) d -> P v -> Forall (fun kv => P (snd kv)) (dict_set k v d).
Proof.
  induction 1 as [|[k' v'] d Hv' Hd IH]; intros Hv; simpl; [constructor; auto|].
  destruct (text_eqb k k'); constructor; auto.
Qed.

Lemma parse_score_range (s : text) : exists x, parse_score s = Some x /\ in_range 1 10 x.
Proof. apply parse_number_range; lia. Qed.

Lemma parse_rating_range (s : text) : exists x, parse_rating s = Some x /\ in_range 0 10 x.
Proof. apply parse_number_range; lia. Qed.

(** Every entry the loop writes has a score in [[1, 10]]. *)
Lemma analyze_sections_scored (o : resume_oracle) (t : text) (secs : list text) :
  forall acc tr tr' d, Forall (fun kv => scored_entry (snd kv)) acc ->
    analyze_sections o t secs acc tr = (tr', Some d) ->
    Forall (fun kv => scored_entry (snd kv)) d.
Proof.
  induction secs as [|a secs IH]; intros acc tr tr' d Hacc H; simpl in H.
  - unfold ret in H; inversion H; subst; exact Hacc.
  - apply bind_some in H as ([an sc] & tr1 & _ & H).
    apply bind_some in H as (x & tr2 & Hx & H).
    unfold lift in Hx; injection Hx as <- Hpx; cbn [snd] in Hpx.
    eapply IH; [|exact H]. apply dict_set_forall; [exact Hacc|].
    destruct (parse_score_range sc) as (y & Hy & Hr).
    exists an, x; split; [reflexivity|]. rewrite Hpx in Hy; injection Hy as ->; exact Hr.
Qed.

(** When every unit call answers, the loop issues one call per name of
    the list, in order, duplicates included. *)
Lemma analyze_sections_run (o : resume_oracle) (t : text) (secs : list text) :
  (forall tr s, o_evaluate o tr s t <> None) ->
  forall acc tr, exists d,
    analyze_sections o t secs acc tr = (tr ++ map (fun s => CallEvaluate s t) secs, Some d).
Proof.
  intros Hok; induction secs as [|a secs IH]; intros acc tr; simpl.
  - exists acc; rewrite app_nil_r; reflexivity.
  - unfold bind, issue, lift.
    destruct (o_evaluate o tr a t) as [[an sc]|] eqn:E; [|exfalso; exact (Hok tr a E)].
    cbn [fst snd]. destruct (parse_score_some sc) as [x ->].
    destruct (IH (dict_set a (VDict [(lit "analysis", VStr an); (lit "score", VNum x)]) acc)
                 (tr ++ [CallEvaluate a t])) as [d Hd].
    exists d; rewrite <- app_assoc in Hd; exact Hd.
Qed.

(** What [ResumeAnalyzer.forward] can return: the empty dict, or the
    dict of the six keys with every section score in [[1, 10]]. *)
Lemma forward_shape (o : resume_oracle) (t : text) (tr : list call) :
  exists d, snd (forward o t tr) = Some d /\
    (d = [] \/ exists sl sa su st we re,
       Forall (fun kv => scored_entry (snd kv)) sa /\
       d = [(lit "sections", VList sl); (lit "section_analyses", VDict sa);
            (lit "overall_summary", VStr su); (lit "strengths", VList st);
            (lit "weaknesses", VList we); (lit "recommendations", VList re)]).
Proof.
  unfold forward; rewrite catch_snd.
  match goal with |- context [snd (?m tr)] => destruct (m tr) as [tr' [d|]] eqn:E end;
    simpl snd; eexists; (split; [reflexivity|]); [right|left; reflexivity].
  apply bind_some in E as (sections & tr1 & _ & E).
  apply bind_some in E as (sa & tr2 & Hsa & E).
  apply bind_some in E as (overall & tr3 & _ & E).
  destruct overall as [[[su st] we] re]; unfold ret in E; inversion E; subst.
  do 6 eexists; split; [|reflexivity].
  exact (analyze_sections_scored o t _ [] _ _ _ (Forall_nil _) Hsa).
Qed.

(** ** The movie reviewer *)

Lemma rate_quality_stars (t : text) : In (rate_quality t) [star5; star4; star3; star2].
Proof.
  unfold rate_quality.
  destruct (contains (lit "excellent") (lower t)); [simpl; tauto|].
  destruct (contains (lit "good") (lower t)); [simpl; tauto|].
  destruct (contains (lit "average") (lower t)); [simpl; tauto|].
  destruct (contains (lit "poor") (lower t)); simpl; tauto.
Qed.

Lemma movie_forward_shape (mo : movie_oracle) (r : text) (tr : list call) :
  exists d, snd (movie_forward mo r tr) = Some d /\
    (d = [] \/ exists a1 a2 a3 a4 a5 a6 x g sm rc,
       in_range 0 10 x /\ d = movie_result a1 a2 a3 a4 a5 a6 x g sm rc).
Proof.
  unfold movie_forward; rewrite catch_snd.
  match goal with |- context [snd (?m tr)] => destruct (m tr) as [tr' [d|]] eqn:E end;
    simpl snd; eexists; (split; [reflexivity|]); [right|left; reflexivity].
  apply bind_some in E as (analysis & tr1 & _ & E).
  apply bind_some in E as (genres & tr2 & _ & E).
  apply bind_some in E as (comparisons & tr3 & _ & E).
  destruct analysis as [[[[[[a1 a2] a3] a4] a5] a6] a7].
  destruct comparisons as [c1 c2]. cbv beta iota in E.
  apply bind_some in E as (x & tr4 & Hx & E).
  unfold lift in Hx; injection Hx as <- Hpx.
  unfold ret in E; inversion E; subst.
  destruct (parse_rating_range a7) as (y & Hy & Hr).
  rewrite Hpx in Hy; injection Hy as ->.
  exists a1, a2, a3, a4, a5, a6, y, genres, c1, c2; split; [exact Hr|reflexivity].
Qed.

(** ** The display functions *)

Lemma show_sections_ok (b : bool) (sa : dict) :
  Forall (fun kv => scored_entry (snd kv)) sa ->
  forallb (fun kv => show_section b (snd kv)) sa = true.
Proof.
  induction 1 as [|[k v] sa Hv _ IH]; [reflexivity|].
  simpl forallb. rewrite IH, andb_true_r.
  destruct Hv as (an & x & Hv & Hr); cbn [snd] in Hv; subst v.
  unfold show_section; cbn [subscript dict_get text_eqb lit list_ascii_of_string Ascii.eqb].
  simpl. rewrite orb_true_r, andb_true_r.
  unfold progress_ok, in_range in *; destruct (num_parts x) as [a c].
  apply andb_true_intro; split; apply Z.leb_le; lia.
Qed.

Lemma display_resume_ok (mode : text) (d : dict) :
  (d = [] \/ exists sl sa su st we re,
     Forall (fun kv => scored_entry (snd kv)) sa /\
     d = [(lit "sections", VList sl); (lit "section_analyses", VDict sa);
          (lit "overall_summary", VStr su); (lit "strengths", VList st);
          (lit "weaknesses", VList we); (lit "recommendations", VList re)]) ->
  display_results_resume mode d = Some tt.
Proof.
  intros [->|(sl & sa & su & st & we & re & Hsa & ->)]; [reflexivity|].
  unfold display_results_resume, get_or, lit; simpl.
  rewrite show_sections_ok by exact Hsa. reflexivity.
Qed.

Lemma display_movie_empty : display_results_movie [] = None.
Proof. reflexivity. Qed.

Lemma display_movie_ok (a1 a2 a3 a4 a5 a6 : text) (x : pynum) (g sm rc : text) :
  display_results_movie (movie_result a1 a2 a3 a4 a5 a6 x g sm rc) = Some tt.
Proof. reflexivity. Qed.

(** [ResumeAnalyzer.forward], when every call answers, issues the Stage 1
    call, then one evaluation call per listed unit name in order (a repeated
    name is evaluated again), then the holistic call, and returns the dict
    of its six keys. *)
Theorem forward_calls_per_unit (o : resume_oracle) (t reply : text) (tr : list call) :
  o_sections o tr t = Some reply ->
  (forall tr' s, o_evaluate o tr' s t <> None) ->
  (forall tr', o_assess o tr' t <> None) ->
  exists d,
    forward o t tr =
      (tr ++ CallSections t :: map (fun s => CallEvaluate s t) (section_list_of reply)
          ++ [CallAssess t], Some d) /\
    map fst d = resume_keys.
Proof.
  intros Hs Hev Has.
  destruct (analyze_sections_run o t (section_list_of reply) Hev [] (tr ++ [CallSections t]))
    as [sa Hsa].
  unfold forward, catch, bind, issue. rewrite Hs. cbv beta iota.
  rewrite Hsa.
  destruct (o_assess o _ t) as [[[[su st] we] re]|] eqn:E; [|exfalso; exact (Has _ E)].
  eexists; split; [rewrite <- !app_assoc; reflexivity|reflexivity].
Qed.

Lemma forward_calls_per_unit_witness :
  exists d,
    forward (mock_oracle (lit "Skills, Skills, Experience")) (lit "resume") [] =
      ([CallSections (lit "resume"); CallEvaluate (lit "Skills") (lit "resume");
        CallEvaluate (lit "Skills") (lit "resume");
        CallEvaluate (lit "Experience") (lit "resume"); CallAssess (lit "resume")],
       Some d) /\
    map fst d = resume_keys.
Proof.
  apply (forward_calls_per_unit (mock_oracle (lit "Skills, Skills, Experience"))
           (lit "resume") (lit "Skills, Skills, Experience") []).
  - reflexivity.
  - intros tr s; discriminate.
  - intros tr; discriminate.
Defined.

(** Every section score [ResumeAnalyzer.forward] returns lies in
    [[1, 10]], so the progress value [score / 10] of [display_results] lies
    in [[0.1, 1]]; each entry holds exactly [analysis] and [score]. *)
Theorem forward_scores_in_range (o : resume_oracle) (t : text) (tr : list call)
    (d sa : dict) :
  snd (forward o t tr) = Some d ->
  dict_get (lit "section_analyses") d = Some (VDict sa) ->
  Forall (fun kv => exists an x,
            snd kv = VDict [(lit "analysis", VStr an); (lit "score", VNum x)] /\
            in_range 1 10 x) sa.
Proof.
  intros Hd Hsa.
  destruct (forward_shape o t tr) as (d' & Hd' & [->|(sl & sa' & su & st & we & re & Hf & ->)]);
    rewrite Hd in Hd'; injection Hd' as ->; [discriminate|].
  simpl in Hsa. injection Hsa as <-. exact Hf.
Qed.

Lemma forward_scores_in_range_witness :
  Forall (fun kv => exists an x,
            snd kv = VDict [(lit "analysis", VStr an); (lit "score", VNum x)] /\
            in_range 1 10 x)
    [(lit "SKILLS", VDict [(lit "analysis", VStr (lit "Clear and relevant."));
                           (lit "score", VNum (PFloat (lit "8") []))])].
Proof.
  apply (forward_scores_in_range (mock_oracle (lit "SKILLS")) (lit "resume") []
           (match snd (forward (mock_oracle (lit "SKILLS")) (lit "resume") []) with
            | Some d => d | None => [] end));
    vm_compute; reflexivity.
Defined.

(** The [Analyze Resume] handler, on a resume of at least 50 words,
    always renders what [forward] returned (the empty dict after a failed
    analysis gives an empty page) and never reaches its [except] branch:
    [display_results] reads everything through [result.get] and every score
    fits the progress bar. *)
Theorem main_resume_click_shows (o : resume_oracle) (mode t : text) (tr : list call) :
  50 <= length (split_ws t) ->
  exists d, snd (forward o t tr) = Some d /\
    main_resume_click o mode t tr = (fst (forward o t tr), Some (HShown d)).
Proof.
  intros H. destruct (forward_shape o t tr) as (d & Hd & Hsh).
  exists d; split; [exact Hd|].
  unfold main_resume_click. replace (Nat.ltb (length (split_ws t)) 50) with false
    by (symmetry; apply Nat.ltb_ge; exact H).
  unfold catch, bind, lift, ret.
  destruct (forward o t tr) as [tr' r]; cbn [snd] in Hd; subst r.
  rewrite (display_resume_ok mode d Hsh). reflexivity.
Qed.

Lemma main_resume_click_shows_witness :
  exists d,
    snd (forward (failing_unit_oracle (lit "Skills") (lit "Skills")) fifty_words []) = Some d /\
    main_resume_click (failing_unit_oracle (lit "Skills") (lit "Skills"))
      (lit "Detailed Evaluation") fifty_words [] =
    (fst (forward (failing_unit_oracle (lit "Skills") (lit "Skills")) fifty_words []),
     Some (HShown d)).
Proof.
  apply main_resume_click_shows. vm_compute. repeat constructor.
Defined.

(** [AdvancedMovieReviewer.forward], when its three calls answer, issues
    them in the order analysis, genres, recommendations and returns the
    eight keys, with a rating in [[0, 10]] and one of the four star strings
    for each of the three technical aspects. *)
Theorem movie_forward_all_answer (mo : movie_oracle) (r : text) (tr : list call) :
  (forall tr', o_analysis mo tr' r <> None) ->
  (forall tr', o_genres mo tr' r <> None) ->
  (forall tr', o_recommend mo tr' r <> None) ->
  exists d, movie_forward mo r tr =
      (tr ++ [CallAnalysis r; CallGenres r; CallRecommend r], Some d) /\
    map fst d = movie_keys /\
    (exists x, dict_get (lit "rating") d = Some (VNum x) /\ in_range 0 10 x) /\
    (exists tech, dict_get (lit "technical_review") d = Some (VDict tech) /\
       map fst tech = [lit "directing"; lit "cinematography"; lit "technical_aspects"] /\
       Forall (fun kv => exists s, snd kv = VStr s /\ In s [star5; star4; star3; star2]) tech).
Proof.
  intros Ha Hg Hr.
  unfold movie_forward, catch, bind, issue, lift, ret.
  destruct (o_analysis mo tr r) as [[[[[[[a1 a2] a3] a4] a5] a6] a7]|] eqn:Ea;
    [|exfalso; exact (Ha _ Ea)].
  destruct (o_genres mo (tr ++ [CallAnalysis r]) r) as [g|] eqn:Eg;
    [|exfalso; exact (Hg _ Eg)].
  destruct (o_recommend mo ((tr ++ [CallAnalysis r]) ++ [CallGenres r]) r) as [[c1 c2]|] eqn:Er;
    [|exfalso; exact (Hr _ Er)].
  destruct (parse_rating_range a7) as (x & Hx & Hrange). rewrite Hx.
  eexists; split; [rewrite <- !app_assoc; reflexivity|].
  split; [reflexivity|]. split.
  - exists x; split; [reflexivity|exact Hrange].
  - eexists; split; [reflexivity|]. split; [reflexivity|].
    repeat constructor; eexists; (split; [reflexivity|apply rate_quality_stars]).
Qed.

Lemma movie_forward_all_answer_witness :
  exists d, movie_forward (movie_mock (lit "12/10") (lit "sci-fi, drama")) (lit "review") [] =
      ([CallAnalysis (lit "review"); CallGenres (lit "review"); CallRecommend (lit "review")],
       Some d) /\
    map fst d = movie_keys /\
    (exists x, dict_get (lit "rating") d = Some (VNum x) /\ in_range 0 10 x) /\
    (exists tech, dict_get (lit "technical_review") d = Some (VDict tech) /\
       map fst tech = [lit "directing"; lit "cinematography"; lit "technical_aspects"] /\
       Forall (fun kv => exists s, snd kv = VStr s /\ In s [star5; star4; star3; star2]) tech).
Proof.
  apply (movie_forward_all_answer (movie_mock (lit "12/10") (lit "sci-fi, drama"))
           (lit "review") []); intros tr'; discriminate.
Defined.

(** [AdvancedMovieReviewer.forward] stops at the first call that raises:
    the later predictors are not called, and the empty dict is returned. *)
Theorem movie_forward_stops_at_failure (mo : movie_oracle) (r : text) (tr : list call) :
  (o_analysis mo tr r = None ->
     movie_forward mo r tr = (tr ++ [CallAnalysis r], Some [])) /\
  (forall a, o_analysis mo tr r = Some a ->
     o_genres mo (tr ++ [CallAnalysis r]) r = None ->
     movie_forward mo r tr = (tr ++ [CallAnalysis r; CallGenres r], Some [])) /\
  (forall a g, o_analysis mo tr r = Some a ->
     o_genres mo (tr ++ [CallAnalysis r]) r = Some g ->
     o_recommend mo (tr ++ [CallAnalysis r; CallGenres r]) r = None ->
     movie_forward mo r tr =
       (tr ++ [CallAnalysis r; CallGenres r; CallRecommend r], Some [])).
Proof.
  unfold movie_forward, catch, bind, issue.
  split; [|split].
  - intros Ha; rewrite Ha; reflexivity.
  - intros a Ha Hg; rewrite Ha, Hg; rewrite <- app_assoc; reflexivity.
  - intros a g Ha Hg Hr; rewrite Ha, Hg. rewrite <- app_assoc. cbn [app]. rewrite Hr.
    rewrite <- !app_assoc; reflexivity.
Qed.

Lemma movie_forward_stops_at_failure_witness :
  movie_forward movie_failing (lit "review") [] = ([CallAnalysis (lit "review")], Some []).
Proof.
  exact (proj1 (movie_forward_stops_at_failure movie_failing (lit "review") []) eq_refl).
Defined.

(** The [Analyze Review] handler, on a review that is not blank, runs the
    analysis and then either renders the result or, when the analysis
    failed and [forward] returned the empty dict, ends in its [except]
    branch: [display_results] raises [KeyError] on [result['rating']]. *)
Theorem main_movie_click_outcome (mo : movie_oracle) (r : text) (tr : list call) :
  strip r <> [] ->
  exists d, snd (movie_forward mo r tr) = Some d /\
    main_movie_click mo r tr =
      (fst (movie_forward mo r tr),
       Some (match d with [] => HFailed | _ => HShown d end)).
Proof.
  intros Hr. destruct (movie_forward_shape mo r tr) as (d & Hd & Hsh).
  exists d; split; [exact Hd|].
  unfold main_movie_click.
  replace (negb (truthy (strip r))) with false
    by (apply truthy_nonempty in Hr; rewrite Hr; reflexivity).
  unfold catch, bind, lift, ret.
  destruct (movie_forward mo r tr) as [tr' res]; cbn [snd] in Hd; subst res.
  destruct Hsh as [->|(a1 & a2 & a3 & a4 & a5 & a6 & x & g & sm & rc & _ & ->)].
  - rewrite display_movie_empty. reflexivity.
  - rewrite display_movie_ok. reflexivity.
Qed.

Lemma main_movie_click_outcome_witness :
  exists d, snd (movie_forward movie_failing (lit "Great film.") []) = Some d /\
    main_movie_click movie_failing (lit "Great film.") [] =
      (fst (movie_forward movie_failing (lit "Great film.") []),
       Some (match d with [] => HFailed | _ => HShown d end)).
Proof. apply main_movie_click_outcome. vm_compute. discriminate. Defined.

(** The [Analyze Review] handler warns about a blank review (empty or only
    whitespace) and issues no oracle call. *)
Theorem main_movie_click_blank (mo : movie_oracle) (r : text) (tr : list call) :
  strip r = [] -> main_movie_click mo r tr = (tr, Some HWarned).
Proof. intros H; unfold main_movie_click; rewrite H; reflexivity. Qed.

Lemma main_movie_click_blank_witness :
  main_movie_click movie_failing (lit "  ") [] = ([], Some HWarned).
Proof. apply main_movie_click_blank. reflexivity. Defined.

Lemma analyze_sections_keys_some (o : resume_oracle) (t : text) (secs : list text) :
  forall acc tr tr' d, analyze_sections o t secs acc tr = (tr', Some d) ->
    map fst d = fold_left add_key secs (map fst acc).
Proof.
  induction secs as [|a secs IH]; intros acc tr tr' d H; simpl in H.
  - unfold ret in H; injection H as _ <-; reflexivity.
  - apply bind_some in H as ([an sc] & tr1 & _ & H).
    apply bind_some in H as (x & tr2 & _ & H).
    simpl. rewrite (IH _ _ _ _ H), keys_dict_set. reflexivity.
Qed.

(** Whenever [ResumeAnalyzer.forward] returns its full dict, the keys of
    [section_analyses] are the names of [sections], each once, in
    first-seen order: [display_results] shows one score per distinct listed
    section. *)
Theorem forward_analyses_match_sections (o : resume_oracle) (t : text) (tr : list call)
    (d : dict) (sl : list text) (sa : dict) :
  snd (forward o t tr) = Some d ->
  dict_get (lit "sections") d = Some (VList sl) ->
  dict_get (lit "section_analyses") d = Some (VDict sa) ->
  map fst sa = uniq_first sl.
Proof.
  intros Hd Hsl Hsa. unfold forward in Hd; rewrite catch_snd in Hd.
  match type of Hd with context [snd (?m tr)] => destruct (m tr) as [tr' [d'|]] eqn:E end;
    cbn [snd] in Hd; injection Hd as <-; [|discriminate].
  apply bind_some in E as (sections & tr1 & _ & E).
  apply bind_some in E as (sa0 & tr2 & Hsa0 & E).
  apply bind_some in E as (overall & tr3 & _ & E).
  destruct overall as [[[su st] we] re]; unfold ret in E; injection E as _ <-.
  simpl in Hsl, Hsa. injection Hsl as <-. injection Hsa as <-.
  exact (analyze_sections_keys_some o t _ [] _ _ _ Hsa0).
Qed.

Lemma forward_analyses_match_sections_witness :
  map fst [(lit "Skills", VDict [(lit "analysis", VStr (lit "Clear and relevant."));
                                 (lit "score", VNum (PFloat (lit "8") []))]);
           (lit "Experience", VDict [(lit "analysis", VStr (lit "Clear and relevant."));
                                     (lit "score", VNum (PFloat (lit "8") []))])] =
  uniq_first [lit "Skills"; lit "Skills"; lit "Experience"].
Proof.
  apply (forward_analyses_match_sections (mock_oracle (lit "Skills, Skills, Experience"))
           (lit "resume") []
           (match snd (forward (mock_oracle (lit "Skills, Skills, Experience")) (lit "resume") [])
            with Some d => d | None => [] end));
    vm_compute; reflexivity.
Defined.

Lemma format_list_items_witness :
  exists p, lit "- Cloud skills" = lit "- " ++ p /\ p <> [] /\ strip p = p /\ ~ In ";"%char p.
Proof.
  apply (proj1 format_list_items (lit "Leadership; Cloud skills ;")).
  vm_compute. right; left; reflexivity.
Defined.
